(** * The participation and concierge-assignment engine of the event system

    A shallow embedding of [src/events/events.service.ts] (class
    [EventsService]): the marketer join/leave coordinator, the concierge
    request workflow and the attendee check-in, together with the properties
    the specification states about them.

    Conventions of the embedding.
    - Identifiers ([Types.ObjectId], and the strings the service receives for
      them) are canonical hexadecimal strings, so [new Types.ObjectId(s)] and
      the [.toString()] of an [ObjectId] are the identity and
      [r.user.toString() === userId] is equality of strings. The elements of
      [event.marketers] are not [ObjectId]s when the service reads them:
      [findOne] populates them, and the [.toString()] of a document is no
      hexadecimal string (see [Rendering]).
    - An [async] method is a function from the store to an outcome (an
      exception or a value) and the store it leaves behind.  The store keeps
      what was committed before an exception was thrown.
    - What the environment decides ([new Date()], the [_id] mongoose gives a
      pushed sub-document, whether a write is committed or rejected by the
      database, which of two rejections reaches [Promise.all] first) is read
      from an [Env] record.  Reads are reliable.
    - Arrays that the source guards with [|| []] are lists; an absent array is
      the empty list. *)

From Stdlib Require Import ZArith.
From stdpp Require Import gmap strings list fin_maps.

Local Open Scope string_scope.
Local Open Scope list_scope.
Local Open Scope nat_scope.

(** ** Data model *)

Abbreviation Id := string (only parsing).
Abbreviation Date := Z (only parsing).

(** [Role] of [common/enums/role.enum]; the members the service and its
    controller name. *)
Inductive Role := ADMIN | MARKETER | CONCIERGE | ATTENDEE.

#[global] Instance Role_eq_dec : EqDecision Role.
Proof. solve_decision. Defined.

(** The [status] strings of a concierge request. *)
Inductive RequestStatus := Pending | Approved | Rejected.

#[global] Instance RequestStatus_eq_dec : EqDecision RequestStatus.
Proof. solve_decision. Defined.

(** An element of [event.conciergeRequests]. *)
Record ConciergeRequest := mkRequest {
  req_id : Id;                    (* _id *)
  req_user : Id;                  (* user *)
  req_status : RequestStatus;     (* status *)
  requestedAt : Date;
  reviewedAt : option Date;
  reviewedBy : option Id
}.

(** The fields of an [EventDocument] the engine reads or writes; the document
    is stored under its [_id]. *)
Record Event := mkEvent {
  marketers : list Id;
  conciergeRequests : list ConciergeRequest
}.

(** The user schema: [role] and [eventParticipation]. *)
Record User := mkUser {
  role : Role;
  eventParticipation : list Id
}.

(** Modelled from the spec: the attendee schema is not part of the sources;
    the record has the fields of the data model ([id], [event], [phone],
    [checkedIn], [checkedInBy], [checkedInTime]). *)
Record Attendee := mkAttendee {
  att_id : Id;
  att_event : Id;
  att_phone : string;
  checkedIn : bool;
  checkedInBy : option Id;
  checkedInTime : option Date
}.

(** The three collections. The attendee collection is kept in the order in
    which the database returns it. *)
Record Store := mkStore {
  events : gmap string Event;
  users : gmap string User;
  attendees : list Attendee
}.

Definition set_events (f : gmap string Event → gmap string Event) (st : Store) : Store :=
  mkStore (f (events st)) (users st) (attendees st).
Definition set_users (f : gmap string User → gmap string User) (st : Store) : Store :=
  mkStore (events st) (f (users st)) (attendees st).
Definition set_attendees (f : list Attendee → list Attendee) (st : Store) : Store :=
  mkStore (events st) (users st) (f (attendees st)).

Definition set_marketers (ms : list Id) (e : Event) : Event :=
  mkEvent ms (conciergeRequests e).
Definition set_conciergeRequests (rs : list ConciergeRequest) (e : Event) : Event :=
  mkEvent (marketers e) rs.

(** ** Exceptions *)

Inductive HttpStatus := BAD_REQUEST | UNAUTHORIZED | NOT_FOUND | INTERNAL_SERVER_ERROR.

#[global] Instance HttpStatus_eq_dec : EqDecision HttpStatus.
Proof. solve_decision. Defined.

(** What the service throws: the two Nest exception classes it names, a plain
    [HttpException] with its status, and an error raised by the database
    driver, which is no [HttpException]. *)
Inductive Exception :=
  | NotFoundException (msg : string)
  | UnauthorizedException (msg : string)
  | HttpException (msg : string) (status : HttpStatus)
  | StoreError (msg : string).

#[global] Instance Exception_eq_dec : EqDecision Exception.
Proof. solve_decision. Defined.

(** [error.message] *)
Definition message (e : Exception) : string :=
  match e with
  | NotFoundException m | UnauthorizedException m | HttpException m _ | StoreError m => m
  end.

(** The status the caller receives; an error that is no [HttpException] is
    answered with 500 by the framework. *)
Definition getStatus (e : Exception) : HttpStatus :=
  match e with
  | NotFoundException _ => NOT_FOUND
  | UnauthorizedException _ => UNAUTHORIZED
  | HttpException _ s => s
  | StoreError _ => INTERNAL_SERVER_ERROR
  end.

(** [error instanceof NotFoundException || error instanceof
    UnauthorizedException || error instanceof HttpException] *)
Definition isHttpException (e : Exception) : bool :=
  match e with StoreError _ => false | _ => true end.

(** The error kinds of the specification, and the kind a caller reads off an
    exception of the service: 404 is [NotFound], the authorisation failure
    (401) is [Forbidden], 400 is [Conflict], and 500 is the generic failure.
    Nothing the service throws is a [PartialFailure]. *)
Inductive ErrorKind := NotFound | Forbidden | Conflict | PartialFailure | GenericFailure.

#[global] Instance ErrorKind_eq_dec : EqDecision ErrorKind.
Proof. solve_decision. Defined.

Definition kind_of (e : Exception) : ErrorKind :=
  match getStatus e with
  | NOT_FOUND => NotFound
  | UNAUTHORIZED => Forbidden
  | BAD_REQUEST => Conflict
  | INTERNAL_SERVER_ERROR => GenericFailure
  end.

(** ** The environment of a call *)

Inductive WriteOutcome := Committed | Failed (msg : string).

Record Env := mkEnv {
  now : Date;                     (* new Date() *)
  newId : Id;                     (* _id of a pushed sub-document *)
  eventSave : WriteOutcome;       (* event.save() *)
  userWrite : WriteOutcome;       (* usersService.add/removeEventParticipation *)
  attendeeUpdate : WriteOutcome;  (* attendeesService.update *)
  secondRejectsFirst : bool       (* Promise.all, when both promises reject *)
}.

(** ** Asynchronous computations over the store *)

Definition Async (A : Type) : Type := Store → (Exception + A) * Store.

Definition resolve {A} (a : A) : Async A := λ st, (inr a, st).
Definition throw {A} (e : Exception) : Async A := λ st, (inl e, st).

Definition await {A B} (m : Async A) (k : A → Async B) : Async B :=
  λ st, match m st with
        | (inl e, st') => (inl e, st')
        | (inr a, st') => k a st'
        end.

Notation "'let*' x ':=' m 'in' k" := (await m (λ x, k))
  (at level 10, x pattern, m at level 100, k at level 200).

(** [try { m } catch (error) { h error }] *)
Definition try_catch {A} (m : Async A) (h : Exception → Async A) : Async A :=
  λ st, match m st with
        | (inl e, st') => h e st'
        | (inr a, st') => (inr a, st')
        end.

(** [Promise.all([p, q])]: both promises are started and neither is cancelled
    when the other rejects, so the effects of both reach the store; the result
    is the pair of values, or the rejection that arrives first. *)
Definition Promise_all {A B} (qFirst : bool) (p : Async A) (q : Async B) : Async (A * B) :=
  λ st, let '(ra, st1) := p st in
        let '(rb, st2) := q st1 in
        (match ra, rb with
         | inr a, inr b => inr (a, b)
         | inl e, inr _ => inl e
         | inr _, inl e => inl e
         | inl ea, inl eb => inl (if qFirst then eb else ea)
         end, st2).

(** ** The event model *)

(** [findOne(id)]. The document is given as it is stored; the
    [populate('marketers', '-password')] of the query is applied where the
    service reads the elements of [marketers] (see [populate]). *)
Definition findOne (id : Id) : Async Event :=
  λ st, match events st !! id with
        | Some event => (inr event, st)
        | None => (inl (NotFoundException "Event not found"), st)
        end.

(** [event.save()] for the document loaded under [id]. *)
Definition save (o : WriteOutcome) (id : Id) (event : Event) : Async unit :=
  λ st, match o with
        | Committed => (inr (), set_events <[id := event]> st)
        | Failed m => (inl (StoreError m), st)
        end.

(** ** Collaborators: the users and attendees services *)

(** Modelled from the spec: [UsersService.findById] is not part of the
    sources; a missing user is a [NotFound]. *)
Definition findById (id : Id) : Async User :=
  λ st, match users st !! id with
        | Some u => (inr u, st)
        | None => (inl (NotFoundException "User not found"), st)
        end.

(** Modelled from the spec: [UsersService.addEventParticipation] is not part
    of the sources; it adds [eventId] to the set [user.eventParticipation]. *)
Definition addEventParticipation (o : WriteOutcome) (userId eventId : Id) : Async unit :=
  λ st, match o with
        | Failed m => (inl (StoreError m), st)
        | Committed =>
            match users st !! userId with
            | None => (inl (NotFoundException "User not found"), st)
            | Some u =>
                let ps := if decide (eventId ∈ eventParticipation u)
                          then eventParticipation u
                          else eventParticipation u ++ [eventId] in
                (inr (), set_users <[userId := mkUser (role u) ps]> st)
            end
        end.

(** Modelled from the spec: [UsersService.removeEventParticipation] is not
    part of the sources; it removes [eventId] from [user.eventParticipation]. *)
Definition removeEventParticipation (o : WriteOutcome) (userId eventId : Id) : Async unit :=
  λ st, match o with
        | Failed m => (inl (StoreError m), st)
        | Committed =>
            match users st !! userId with
            | None => (inl (NotFoundException "User not found"), st)
            | Some u =>
                let ps := filter (λ e, e ≠ eventId) (eventParticipation u) in
                (inr (), set_users <[userId := mkUser (role u) ps]> st)
            end
        end.

(** The query [{ phone: phone, event: new Types.ObjectId(eventId) }]. *)
Definition matchesQuery (phone : string) (eventId : Id) (a : Attendee) : Prop :=
  att_phone a = phone ∧ att_event a = eventId.

#[global] Instance matchesQuery_dec phone eventId a : Decision (matchesQuery phone eventId a).
Proof. unfold matchesQuery. apply _. Defined.

(** Modelled from the spec: [AttendeesService.findByQuery] is not part of the
    sources; it returns the attendees of the event with the phone, in store
    order. *)
Definition findByQuery (phone : string) (eventId : Id) : Async (list Attendee) :=
  λ st, (inr (filter (matchesQuery phone eventId) (attendees st)), st).

(** The update [{ checkedIn: true, checkedInBy: conciergeId, checkedInTime:
    new Date() }] applied to a record. *)
Definition checkInFields (by_ : Id) (time : Date) (a : Attendee) : Attendee :=
  mkAttendee (att_id a) (att_event a) (att_phone a) true (Some by_) (Some time).

(** Modelled from the spec: [AttendeesService.update] is not part of the
    sources; it applies the update to the attendee with the given id, as one
    atomic update of that document. *)
Definition update (o : WriteOutcome) (id : Id) (f : Attendee → Attendee) : Async unit :=
  λ st, match o with
        | Failed m => (inl (StoreError m), st)
        | Committed =>
            match list_find (λ a, att_id a = id) (attendees st) with
            | None => (inl (NotFoundException "Attendee not found"), st)
            | Some (i, a) => (inr (), set_attendees <[i := f a]> st)
            end
        end.

(** ** The service: [EventsService] *)

(** [r.user.toString() === userId && r.status === 'Pending'] *)
Definition isPendingFor (userId : Id) (r : ConciergeRequest) : Prop :=
  req_user r = userId ∧ req_status r = Pending.

(** [req.user.toString() === conciergeId && req.status === 'Approved'] *)
Definition isApprovedFor (conciergeId : Id) (r : ConciergeRequest) : Prop :=
  req_user r = conciergeId ∧ req_status r = Approved.

#[global] Instance isPendingFor_dec userId r : Decision (isPendingFor userId r).
Proof. unfold isPendingFor. apply _. Defined.

#[global] Instance isApprovedFor_dec conciergeId r : Decision (isApprovedFor conciergeId r).
Proof. unfold isApprovedFor. apply _. Defined.

(** ** Populated references and what [toString()] gives *)

(** The value of a [toString()] call: the hexadecimal string of an
    [ObjectId], or the rendering [inspect] gives of a whole document, which
    starts with a brace and is no hexadecimal string. The constructor keeps
    the two kinds of string apart; [===] is equality of renderings. *)
Inductive Rendering :=
  | HexString (id : Id)
  | InspectedDocument (id : Id).

#[global] Instance Rendering_eq_dec : EqDecision Rendering.
Proof. solve_decision. Defined.

(** An element of [event.marketers] as [findOne] returns it: the user
    document that [populate] has put in the place of the reference. The
    embedding keeps its [_id]. *)
Inductive UserDocument := PopulatedUser (id : Id).

Definition doc_id (d : UserDocument) : Id :=
  match d with PopulatedUser id => id end.

(** [.populate('marketers', '-password')] on the stored references. *)
Definition populate (refs : list Id) : list UserDocument := PopulatedUser <$> refs.

(** What [save] stores for a populated array: the [_id]s of its elements. *)
Definition depopulate (docs : list UserDocument) : list Id := doc_id <$> docs.

(** [marketerId_ObjId.toString()] *)
Definition ObjectId_toString (id : Id) : Rendering := HexString id.

(** [m.toString()] for an element [m] of the populated array. *)
Definition Document_toString (d : UserDocument) : Rendering :=
  InspectedDocument (doc_id d).

(** [event.marketers.push(marketerId_ObjId)] casts the pushed [ObjectId] to a
    document of the populated model with that [_id]. *)
Definition addMarketerToEvent (env : Env) (eventId marketerId : Id) : Async Event :=
  let* found := Promise_all (secondRejectsFirst env) (findOne eventId) (findById marketerId) in
  let event := found.1 in
  let marketer := found.2 in
  if decide (role marketer ≠ MARKETER)
  then throw (UnauthorizedException "Only marketers can be added to events")
  else
    let populated := populate (marketers event) in
    let isMarketerAlreadyAdded :=
      bool_decide (Exists (λ m, Document_toString m = ObjectId_toString marketerId)
                     populated) in
    let* _ :=
      (if isMarketerAlreadyAdded then resolve ()
       else
         let event' :=
           set_marketers (depopulate (populated ++ [PopulatedUser marketerId])) event in
         try_catch
           (let* _ := Promise_all (secondRejectsFirst env)
                        (save (eventSave env) eventId event')
                        (addEventParticipation (userWrite env) marketerId eventId) in
            resolve ())
           (λ error, throw (HttpException
                              ("Failed to add marketer to event: " +:+ message error)
                              INTERNAL_SERVER_ERROR))) in
    findOne eventId.

(** The [if (!event)] test after [findOne] never fires, since [findOne]
    throws for a missing event; the exception is caught by the enclosing
    [catch] as every other one. *)
Definition removeMarketerFromEvent (env : Env) (eventId marketerId : Id) : Async Event :=
  try_catch
    (let* event := findOne eventId in
     let kept := filter (λ id, Document_toString id ≠ ObjectId_toString marketerId)
                   (populate (marketers event)) in
     let event' := set_marketers (depopulate kept) event in
     let* _ := Promise_all (secondRejectsFirst env)
                 (save (eventSave env) eventId event')
                 (removeEventParticipation (userWrite env) marketerId eventId) in
     findOne eventId)
    (λ error, throw (HttpException
                       ("Failed to remove marketer from event: " +:+ message error)
                       INTERNAL_SERVER_ERROR)).

Definition requestConcierge (env : Env) (eventId userId : Id) : Async string :=
  let* event := findOne eventId in
  if bool_decide (Exists (isPendingFor userId) (conciergeRequests event))
  then throw (HttpException "You have already requested to be concierge for this event"
                BAD_REQUEST)
  else
    let event' :=
      set_conciergeRequests
        (conciergeRequests event ++
           [mkRequest (newId env) userId Pending (now env) None None]) event in
    let* _ := save (eventSave env) eventId event' in
    resolve "Request submitted for admin approval".

(** One element of the array [getConciergeAssignments] returns: the event
    ([...event]) and the attached [myConciergeStatus]. *)
Record Assignment := mkAssignment {
  asg_eventId : Id;
  asg_event : Event;
  myConciergeStatus : option RequestStatus
}.

Definition hasRequestOf (userId : Id) (p : string * Event) : Prop :=
  Exists (λ r, req_user r = userId) (conciergeRequests p.2).

#[global] Instance hasRequestOf_dec userId p : Decision (hasRequestOf userId p).
Proof. unfold hasRequestOf. apply _. Defined.

Definition getConciergeAssignments (userId : Id) : Async (list Assignment) :=
  λ st,
    let found := filter (hasRequestOf userId) (map_to_list (events st)) in
    (inr ((λ p : string * Event,
             let myRequest := list_find (λ r, req_user r = userId) (conciergeRequests p.2) in
             mkAssignment p.1 p.2
               (match myRequest with Some (_, r) => Some (req_status r) | None => None end))
            <$> found), st).

Definition reviewConciergeRequest (env : Env) (eventId requestId : Id) (approve : bool)
    (adminId : Id) : Async string :=
  let* event := findOne eventId in
  match list_find (λ r, req_id r = requestId) (conciergeRequests event) with
  | None => throw (NotFoundException "Concierge request not found")
  | Some (i, req) =>
      if decide (req_status req ≠ Pending)
      then throw (HttpException "Request already reviewed" BAD_REQUEST)
      else
        let req' := mkRequest (req_id req) (req_user req)
                      (if approve then Approved else Rejected)
                      (requestedAt req) (Some (now env)) (reviewedBy req) in
        let event' := set_conciergeRequests (<[i := req']> (conciergeRequests event)) event in
        let* _ := save (eventSave env) eventId event' in
        resolve ("Request " +:+ (if approve then "approved" else "rejected"))
  end.

Definition cancelConciergeRequest (env : Env) (eventId userId : Id) : Async string :=
  let* event := findOne eventId in
  match list_find (isPendingFor userId) (conciergeRequests event) with
  | None => throw (NotFoundException "No pending request found")
  | Some (reqIndex, _) =>
      let event' := set_conciergeRequests (delete reqIndex (conciergeRequests event)) event in
      let* _ := save (eventSave env) eventId event' in
      resolve "Request cancelled"
  end.

Definition checkInAttendee (env : Env) (eventId : Id) (phone : string) (conciergeId : Id)
    : Async string :=
  try_catch
    (let* event := findOne eventId in
     let conciergeApproved :=
       bool_decide (Exists (isApprovedFor conciergeId) (conciergeRequests event)) in
     if negb conciergeApproved
     then throw (UnauthorizedException "You are not an approved concierge for this event")
     else
       let* found := findByQuery phone eventId in
       match found with
       | [] => throw (NotFoundException "Attendee not found for this event")
       | attendee :: _ =>
           if checkedIn attendee
           then throw (HttpException "Attendee already checked in" BAD_REQUEST)
           else
             let* _ := update (attendeeUpdate env) (att_id attendee)
                         (checkInFields conciergeId (now env)) in
             resolve "Attendee checked in successfully"
       end)
    (λ error,
       if isHttpException error then throw error
       else throw (HttpException ("Failed to check in attendee: " +:+ message error)
                     INTERNAL_SERVER_ERROR)).

(** ** The operations of the specification *)

(** [myStatus(eventId, userId)]: the status [getConciergeAssignments] attaches
    to the event, [None] (the spec's "none") when it attaches nothing. *)
Definition myStatus (eventId userId : Id) : Async (option RequestStatus) :=
  let* assignments := getConciergeAssignments userId in
  resolve (match list_find (λ a, asg_eventId a = eventId) assignments with
           | Some (_, a) => myConciergeStatus a
           | None => None
           end).

Inductive Op :=
  | join (eventId userId : Id)
  | leave (eventId userId : Id)
  | request (eventId userId : Id)
  | review (eventId requestId : Id) (approve : bool) (reviewerId : Id)
  | cancel (eventId userId : Id)
  | checkIn (eventId : Id) (phone : string) (concierge : Id).

Inductive Reply := EventView (event : Event) | Ack (msg : string).

Definition step (env : Env) (op : Op) : Async Reply :=
  match op with
  | join e u => let* v := addMarketerToEvent env e u in resolve (EventView v)
  | leave e u => let* v := removeMarketerFromEvent env e u in resolve (EventView v)
  | request e u => let* m := requestConcierge env e u in resolve (Ack m)
  | review e r a by_ => let* m := reviewConciergeRequest env e r a by_ in resolve (Ack m)
  | cancel e u => let* m := cancelConciergeRequest env e u in resolve (Ack m)
  | checkIn e p c => let* m := checkInAttendee env e p c in resolve (Ack m)
  end.

(** The store after a sequence of calls, each in its own environment. *)
Fixpoint run (calls : list (Env * Op)) (st : Store) : Store :=
  match calls with
  | [] => st
  | (env, op) :: calls' => run calls' (step env op st).2
  end.

(** * Predicates of the specification *)

(** ** The request list of an event as a transition system *)

(** The ways a call changes the [conciergeRequests] of an event: not at all,
    by a new [Pending] request of a user who has none, by the review of a
    [Pending] request, or by the removal of a [Pending] request. *)
Inductive requests_step : list ConciergeRequest → list ConciergeRequest → Prop :=
  | rs_same l : requests_step l l
  | rs_request l r :
      req_status r = Pending → ¬ Exists (isPendingFor (req_user r)) l →
      requests_step l (l ++ [r])
  | rs_review l i r r' :
      l !! i = Some r → req_status r = Pending → req_status r' ≠ Pending →
      requests_step l (<[i := r']> l)
  | rs_cancel l i r :
      l !! i = Some r → req_status r = Pending → requests_step l (delete i l).

(** The [Pending] requests of a user on an event. *)
Definition pendingFor (userId : Id) (e : Event) : list ConciergeRequest :=
  filter (isPendingFor userId) (conciergeRequests e).

(** The invariant of the data model: at most one [Pending] request per
    (event, user). *)
Definition atMostOnePending (st : Store) : Prop :=
  ∀ eventId e userId,
    events st !! eventId = Some e → length (pendingFor userId e) ≤ 1.

(** ** Concrete stores used to exercise the theorems *)

Definition env_ok (time : Z) (fresh : Id) : Env :=
  mkEnv time fresh Committed Committed Committed false.

Definition demo_rejected : ConciergeRequest :=
  mkRequest "r1" "c1" Rejected 10%Z (Some 20%Z) None.

Definition demo_event : Event := mkEvent ["m0"] [demo_rejected].

Definition demo_store : Store :=
  mkStore {[ "e1" := demo_event ]}
    {[ "m0" := mkUser MARKETER ["e1"]; "m1" := mkUser MARKETER [];
       "c1" := mkUser CONCIERGE [] ]}
    [mkAttendee "a1" "e1" "+15551234567" false None None;
     mkAttendee "a2" "e1" "+15551234567" false None None].

Definition demo_pending : ConciergeRequest :=
  mkRequest "r2" "c1" Pending 30%Z None None.

Definition demo_event_pending : Event := mkEvent ["m0"] [demo_rejected; demo_pending].

(** [demo_store] after the concierge [c1] has requested again. *)
Definition demo_store_pending : Store :=
  mkStore {[ "e1" := demo_event_pending ]} (users demo_store) (attendees demo_store).

(** An event on which a race has left [c1] two [Pending] requests, between
    requests of others. *)
Definition demo_event_race : Event :=
  mkEvent []
    [mkRequest "r1" "c2" Pending 5%Z None None;
     mkRequest "r2" "c1" Approved 10%Z (Some 20%Z) None;
     mkRequest "r3" "c1" Pending 30%Z None None;
     mkRequest "r4" "c1" Pending 31%Z None None].

Definition demo_store_race : Store :=
  mkStore {[ "e1" := demo_event_race ]} (users demo_store) (attendees demo_store).

(** ** Attendee records *)

(** Well-formedness of the attendee collection: [_id] is a key. *)
Definition uniqueAttendeeIds (st : Store) : Prop :=
  NoDup (att_id <$> attendees st).

(** The ways a call changes an attendee record: not at all, or from not
    checked in to checked in. *)
Definition attendee_step (a a' : Attendee) : Prop :=
  a' = a ∨ (checkedIn a = false ∧ ∃ by_ time, a' = checkInFields by_ time a).

Definition demo_approved : ConciergeRequest :=
  mkRequest "r2" "c1" Approved 30%Z (Some 50%Z) None.

Definition demo_event_approved : Event := mkEvent ["m0"] [demo_rejected; demo_approved].

(** [demo_store_pending] after the admin has approved [c1]. *)
Definition demo_store_approved : Store :=
  mkStore {[ "e1" := demo_event_approved ]} (users demo_store) (attendees demo_store).

(** ** The two aggregates of a participation *)

Definition inMarketers (eventId userId : Id) (st : Store) : Prop :=
  match events st !! eventId with
  | Some event => userId ∈ marketers event
  | None => False
  end.

Definition inParticipation (eventId userId : Id) (st : Store) : Prop :=
  match users st !! userId with
  | Some user => eventId ∈ eventParticipation user
  | None => False
  end.

#[global] Instance inMarketers_dec eventId userId st :
  Decision (inMarketers eventId userId st).
Proof. unfold inMarketers. destruct (events st !! eventId); apply _. Defined.

#[global] Instance inParticipation_dec eventId userId st :
  Decision (inParticipation eventId userId st).
Proof. unfold inParticipation. destruct (users st !! userId); apply _. Defined.

(** The cross-aggregate invariant of the data model:
    [eventId ∈ user.eventParticipation ⇔ userId ∈ event.marketers]. *)
Definition consistent (eventId userId : Id) (st : Store) : Prop :=
  inMarketers eventId userId st ↔ inParticipation eventId userId st.

(** The outcome is an error a caller can tell to be a [PartialFailure]. *)
Definition reportsPartialFailure {A} (r : Exception + A) : Prop :=
  match r with
  | inl exn => kind_of exn = PartialFailure
  | inr _ => False
  end.

(** What the specification asks of a call in which one of the two writes
    failed: the aggregates have converged when it returns, or the outcome is a
    [PartialFailure]. *)
Definition divergenceHandled {A} (eventId userId : Id) (out : (Exception + A) * Store)
    : Prop :=
  consistent eventId userId out.2 ∨ reportsPartialFailure out.1.

Definition env_user_write_fails : Env :=
  mkEnv 5 "r9" Committed (Failed "connection reset") Committed false.

Definition env_event_save_fails : Env :=
  mkEnv 5 "r9" (Failed "connection reset") Committed Committed false.

Definition env_both_writes_fail : Env :=
  mkEnv 5 "r9" (Failed "connection reset") (Failed "connection reset") Committed false.

(** ** The status of a user's requests on an event *)

Definition requestsOf (userId : Id) (event : Event) : list ConciergeRequest :=
  filter (λ r, req_user r = userId) (conciergeRequests event).

(** The status of the most recently created request of the user on the
    event, requests being kept in the order of their creation. *)
Definition mostRecentStatus (eventId userId : Id) (st : Store) : option RequestStatus :=
  match events st !! eventId with
  | Some event => req_status <$> last (requestsOf userId event)
  | None => None
  end.

(** The status of the earliest request of the user on the event. *)
Definition earliestStatus (eventId userId : Id) (st : Store) : option RequestStatus :=
  match events st !! eventId with
  | Some event => req_status <$> head (requestsOf userId event)
  | None => None
  end.

(** [demo_store] before any concierge request. *)
Definition demo_store_fresh : Store :=
  mkStore {[ "e1" := mkEvent ["m0"] [] ]} (users demo_store) (attendees demo_store).

(** * Further methods of the service *)

(** ** Deleting an event: [remove] *)

(** [error instanceof NotFoundException] *)
Definition isNotFoundException (e : Exception) : bool :=
  match e with NotFoundException _ => true | _ => false end.

(** [this.eventModel.findByIdAndDelete(id)], committed or rejected by the
    database. *)
Definition findByIdAndDelete (o : WriteOutcome) (id : Id) : Async unit :=
  λ st, match o with
        | Committed => (inr (), set_events (delete id) st)
        | Failed m => (inl (StoreError m), st)
        end.

Definition remove (o : WriteOutcome) (id : Id) : Async string :=
  try_catch
    (let* event := findOne id in
     let* _ := findByIdAndDelete o id in
     resolve "Event deleted successfully")
    (λ error,
       throw (HttpException ("Failed to delete event: " +:+ message error)
                (if isNotFoundException error then NOT_FOUND
                 else INTERNAL_SERVER_ERROR))).

(** ** The admin listings *)

(** A row of [getAllPendingConciergeRequests]. *)
Record PendingRow := mkPendingRow {
  pr_eventId : Id;
  pr_eventName : string;
  pr_eventDate : string;
  pr_requestId : Id;
  pr_user : Id;
  pr_requestedAt : Date;
  pr_status : RequestStatus
}.

(** A row of [getAllApprovedConcierges]. *)
Record ApprovedRow := mkApprovedRow {
  ar_eventId : Id;
  ar_eventName : string;
  ar_eventDate : string;
  ar_user : Id;
  ar_reviewedAt : option Date
}.

(** The query [{ 'conciergeRequests.status': s }]. *)
Definition hasStatus (s : RequestStatus) (p : string * Event) : Prop :=
  Exists (λ r, req_status r = s) (conciergeRequests p.2).

#[global] Instance hasStatus_dec s p : Decision (hasStatus s p).
Proof. unfold hasStatus. apply _. Defined.

Section descriptive_fields.

(** The fields [name], [date] and [isActive] of the event document with a
    given [_id]; no method modelled here writes them. *)
Variables (eventName eventDate : Id → string) (isActive : Id → bool).

(** The [user] of a row is the reference held by the request; the display
    fields that [populate] joins to it are left out. *)
Definition getAllPendingConciergeRequests : Async (list PendingRow) :=
  λ st,
    let found := filter (hasStatus Pending) (map_to_list (events st)) in
    (inr (found ≫= λ p : string * Event,
            (λ req, mkPendingRow p.1 (eventName p.1) (eventDate p.1)
                      (req_id req) (req_user req) (requestedAt req) (req_status req))
              <$> filter (λ req, req_status req = Pending) (conciergeRequests p.2)),
     st).

Definition getAllApprovedConcierges : Async (list ApprovedRow) :=
  λ st,
    let found := filter (hasStatus Approved) (map_to_list (events st)) in
    (inr (found ≫= λ p : string * Event,
            (λ req, mkApprovedRow p.1 (eventName p.1) (eventDate p.1)
                      (req_user req) (reviewedAt req))
              <$> filter (λ req, req_status req = Approved) (conciergeRequests p.2)),
     st).

Definition getActiveEvents : Async (list (string * Event)) :=
  try_catch
    (λ st,
       let found := filter (λ p : string * Event, isActive p.1 = true)
                      (map_to_list (events st)) in
       match found with
       | [] => (inl (HttpException "No active events found" NOT_FOUND), st)
       | _ => (inr found, st)
       end)
    (λ error,
       throw (HttpException ("Failed to retrieve active events: " +:+ message error)
                INTERNAL_SERVER_ERROR)).

End descriptive_fields.

(** ** Predicates for the further properties *)

#[global] Instance ConciergeRequest_eq_dec : EqDecision ConciergeRequest.
Proof. solve_decision. Defined.

(** The failed calls that are known to have written nothing: all but a
    [leave], and but a [join] that failed with a 500. *)
Definition failsBeforeWriting (op : Op) (exn : Exception) : Prop :=
  match op with
  | join _ _ => getStatus exn ≠ INTERNAL_SERVER_ERROR
  | leave _ _ => False
  | _ => True
  end.

(** What a call leaves as it was. *)
Definition frame (op : Op) (st st' : Store) : Prop :=
  match op with
  | join e u | leave e u =>
      attendees st' = attendees st ∧
      (∀ e', e' ≠ e → events st' !! e' = events st !! e') ∧
      (∀ u', u' ≠ u → users st' !! u' = users st !! u') ∧
      conciergeRequests <$> events st' !! e = conciergeRequests <$> events st !! e ∧
      role <$> users st' !! u = role <$> users st !! u
  | request e _ | review e _ _ _ | cancel e _ =>
      users st' = users st ∧ attendees st' = attendees st ∧
      (∀ e', e' ≠ e → events st' !! e' = events st !! e') ∧
      marketers <$> events st' !! e = marketers <$> events st !! e
  | checkIn _ _ _ => events st' = events st ∧ users st' = users st
  end.

(** * Properties *)

(** ** Tactics *)

(** Unfolds a call of the service down to the store. *)
Ltac unfold_service :=
  unfold step, addMarketerToEvent, removeMarketerFromEvent, requestConcierge,
    reviewConciergeRequest, cancelConciergeRequest, checkInAttendee,
    addEventParticipation, removeEventParticipation, findByQuery, update,
    save, findOne, findById, Promise_all, try_catch, await, resolve, throw in *.

(** Settle a closed decidable proposition by evaluation. *)
Ltac decide_true := refine (bool_decide_eq_true_1 _ _); vm_compute; reflexivity.
Ltac decide_false := refine (bool_decide_eq_false_1 _ _); vm_compute; reflexivity.

(** ** Lists under [filter] *)

Section filter_length.
Context {A : Type} (P : A → Prop) `{!∀ x, Decision (P x)}.

Lemma length_filter_insert_le (l : list A) i x :
  ¬ P x → length (filter P (<[i := x]> l)) ≤ length (filter P l).
Proof.
  intros Hx. revert i. induction l as [|y l IH]; intros [|i]; simpl; try lia.
  - rewrite !filter_cons. destruct (decide (P x)); [done|].
    destruct (decide (P y)); simpl; lia.
  - rewrite !filter_cons. specialize (IH i).
    destruct (decide (P y)); simpl; lia.
Qed.

Lemma length_filter_delete_le (l : list A) i :
  length (filter P (delete i l)) ≤ length (filter P l).
Proof.
  revert i. induction l as [|y l IH]; intros [|i]; simpl; try lia.
  - rewrite filter_cons. destruct (decide (P y)); simpl; lia.
  - rewrite !filter_cons. specialize (IH i).
    destruct (decide (P y)); simpl; lia.
Qed.

Lemma filter_nil_not_Exists (l : list A) : ¬ Exists P l → filter P l = [].
Proof.
  intros Hl. induction l as [|y l IH]; [done|].
  rewrite filter_cons. destruct (decide (P y)) as [Hy|Hy].
  - destruct Hl. by left.
  - apply IH. intros Hex. apply Hl. by right.
Qed.
End filter_length.

Lemma requests_step_pending l l' userId :
  requests_step l l' →
  length (filter (isPendingFor userId) l) ≤ 1 →
  length (filter (isPendingFor userId) l') ≤ 1.
Proof.
  intros Hstep Hl. destruct Hstep as [l|l r Hr Hnone|l i r r' Hi Hr Hr'|l i r Hi Hr].
  - done.
  - rewrite filter_app, length_app, filter_cons, filter_nil.
    destruct (decide (isPendingFor userId r)) as [[Hu _]|_]; simpl; [|lia].
    subst userId. rewrite (filter_nil_not_Exists _ _ Hnone). simpl. lia.
  - etrans; [apply length_filter_insert_le|done].
    intros [_ ?]. done.
  - etrans; [apply length_filter_delete_le|done].
Qed.

(** Every call moves the request list of every event by one transition, and
    neither creates nor deletes an event. *)
Lemma step_requests env op st eventId e' :
  events (step env op st).2 !! eventId = Some e' →
  ∃ e, events st !! eventId = Some e ∧
       requests_step (conciergeRequests e) (conciergeRequests e').
Proof.
  destruct op; unfold_service; simpl; intros H.
  all: repeat (case_match; simplify_eq/=;
               try (eexists; split; [eassumption|constructor])).
  all: try (rewrite lookup_insert in H; case_decide; simplify_eq/=).
  all: try (eexists; split; [eassumption|]).
  all: try apply rs_same.
  - apply rs_request; [done|].
    by match goal with H : bool_decide _ = false |- _ =>
         apply bool_decide_eq_false in H end.
  - match goal with H : list_find _ _ = Some _ |- _ =>
      apply list_find_Some in H as (Hi & _ & _) end.
    eapply rs_review; [done| |done].
    by apply dec_stable.
  - match goal with H : list_find _ _ = Some _ |- _ =>
      apply list_find_Some in H as (Hi & _ & _) end.
    eapply rs_review; [done| |done].
    by apply dec_stable.
  - match goal with H : list_find _ _ = Some _ |- _ =>
      apply list_find_Some in H as (Hi & [_ Hp] & _) end.
    eapply rs_cancel; eauto.
Qed.

Lemma step_atMostOnePending env op st :
  atMostOnePending st → atMostOnePending (step env op st).2.
Proof.
  intros Hinv eventId e' userId He'.
  apply step_requests in He' as (e & He & Hstep).
  eapply requests_step_pending; [done|]. by eapply Hinv.
Qed.

Lemma run_atMostOnePending calls st :
  atMostOnePending st → atMostOnePending (run calls st).
Proof.
  revert st. induction calls as [|[env op] calls IH]; intros st Hinv; simpl; [done|].
  apply IH. by apply step_atMostOnePending.
Qed.

(** A call other than [request] never adds a [Pending] request: for every
    event and user the number of [Pending] requests does not grow. *)
Lemma step_no_new_pending env op st eventId e' userId :
  (∀ e u, op ≠ request e u) →
  events (step env op st).2 !! eventId = Some e' →
  ∃ e, events st !! eventId = Some e ∧
       length (pendingFor userId e') ≤ length (pendingFor userId e).
Proof.
  intros Hop. unfold pendingFor.
  destruct op; try (by edestruct Hop); clear Hop; unfold_service; simpl; intros H.
  all: repeat (case_match; simplify_eq/=;
               try (eexists; split; [eassumption|reflexivity])).
  all: try (rewrite lookup_insert in H; case_decide; simplify_eq/=).
  all: try (eexists; split; [eassumption|]); try reflexivity.
  - apply length_filter_insert_le. by intros [_ ?].
  - apply length_filter_insert_le. by intros [_ ?].
  - apply length_filter_delete_le.
Qed.

(** ** C1: one [Pending] request per event and user *)

(** C1. [request(eventId, userId)] on an existing event fails with [Conflict]
    (a 400 [HttpException]) and changes nothing when the user already has a
    [Pending] request on the event; otherwise (whatever [Approved] or
    [Rejected] requests the user has there) it appends a [Pending] request
    with [requestedAt = now], which is then the one [Pending] request of the
    user. Every call of the engine keeps the invariant that an (event, user)
    pair has at most one [Pending] request, so does every sequence of calls,
    and no call other than [request] adds a [Pending] request. *)
Theorem request_keeps_one_pending :
  (∀ env st eventId userId event,
     events st !! eventId = Some event →
     Exists (isPendingFor userId) (conciergeRequests event) →
     ∃ exn, requestConcierge env eventId userId st = (inl exn, st) ∧
            exn = HttpException
                    "You have already requested to be concierge for this event"
                    BAD_REQUEST ∧
            kind_of exn = Conflict) ∧
  (∀ env st eventId userId event,
     events st !! eventId = Some event →
     ¬ Exists (isPendingFor userId) (conciergeRequests event) →
     eventSave env = Committed →
     requestConcierge env eventId userId st =
       (inr "Request submitted for admin approval",
        set_events
          <[eventId := set_conciergeRequests
                         (conciergeRequests event ++
                            [mkRequest (newId env) userId Pending (now env) None None])
                         event]> st)) ∧
  (∀ env st eventId userId event,
     events st !! eventId = Some event →
     Forall (λ r, req_user r = userId → req_status r = Approved ∨ req_status r = Rejected)
       (conciergeRequests event) →
     eventSave env = Committed →
     ∃ st', requestConcierge env eventId userId st =
              (inr "Request submitted for admin approval", st') ∧
            ∃ event', events st' !! eventId = Some event' ∧
                      pendingFor userId event' =
                        [mkRequest (newId env) userId Pending (now env) None None]) ∧
  (∀ env op st, atMostOnePending st → atMostOnePending (step env op st).2) ∧
  (∀ calls st, atMostOnePending st → atMostOnePending (run calls st)) ∧
  (∀ env op st eventId e' userId,
     (∀ e u, op ≠ request e u) →
     events (step env op st).2 !! eventId = Some e' →
     ∃ e, events st !! eventId = Some e ∧
          length (pendingFor userId e') ≤ length (pendingFor userId e)).
Proof.
  split_and!.
  - intros env st eventId userId event Hev Hp. eexists. split_and!; [|done..].
    unfold_service. rewrite Hev. by rewrite bool_decide_eq_true_2.
  - intros env st eventId userId event Hev Hp Hsave.
    unfold_service. rewrite Hev, Hsave. by rewrite bool_decide_eq_false_2.
  - intros env st eventId userId event Hev Hall Hsave.
    assert (¬ Exists (isPendingFor userId) (conciergeRequests event)) as Hnone.
    { intros (r & Hr & Hu & Hp)%Exists_exists. rewrite Forall_forall in Hall.
      destruct (Hall r Hr Hu); congruence. }
    eexists. split.
    + unfold_service. rewrite Hev, Hsave. by rewrite bool_decide_eq_false_2.
    + eexists. simpl. rewrite lookup_insert_eq. split; [done|].
      unfold pendingFor. simpl.
      rewrite filter_app, (filter_nil_not_Exists _ _ Hnone). simpl.
      by rewrite filter_cons_True, filter_nil.
  - apply step_atMostOnePending.
  - apply run_atMostOnePending.
  - apply step_no_new_pending.
Qed.

Lemma demo_store_atMostOnePending : atMostOnePending demo_store.
Proof.
  intros eventId e userId He. unfold demo_store in He. simpl in He.
  apply lookup_singleton_Some in He as [_ <-].
  unfold pendingFor. simpl. rewrite filter_cons, filter_nil.
  destruct (decide (isPendingFor userId demo_rejected)) as [[_ ?]|_]; simpl; [done|lia].
Qed.

(** On [demo_store] the concierge [c1], whose earlier request was rejected,
    requests again and gets a [Pending] request; a further request is a
    [Conflict]; the invariant survives a sequence of calls. *)
Lemma request_keeps_one_pending_witness :
  let st1 := (requestConcierge (env_ok 30 "r2") "e1" "c1" demo_store).2 in
  requestConcierge (env_ok 30 "r2") "e1" "c1" demo_store =
    (inr "Request submitted for admin approval",
     set_events
       <["e1" := mkEvent ["m0"]
                   [demo_rejected; mkRequest "r2" "c1" Pending 30%Z None None]]>
       demo_store) ∧
  (∃ exn, requestConcierge (env_ok 40 "r3") "e1" "c1" st1 = (inl exn, st1) ∧
          kind_of exn = Conflict) ∧
  atMostOnePending
    (run [(env_ok 30 "r2", request "e1" "c1");
          (env_ok 40 "r3", request "e1" "c1");
          (env_ok 50 "r4", review "e1" "r2" true "admin")] demo_store).
Proof.
  destruct request_keeps_one_pending as (Hdup & Hnew & _ & _ & Hrun & _).
  split_and!.
  - apply (Hnew (env_ok 30 "r2") demo_store "e1" "c1" demo_event).
    + reflexivity.
    + decide_false.
    + reflexivity.
  - destruct (Hdup (env_ok 40 "r3")
                (requestConcierge (env_ok 30 "r2") "e1" "c1" demo_store).2 "e1" "c1"
                (mkEvent ["m0"]
                   [demo_rejected; mkRequest "r2" "c1" Pending 30%Z None None]))
      as (exn & Hrun' & _ & Hkind).
    + vm_compute. reflexivity.
    + decide_true.
    + exists exn. split; assumption.
  - apply Hrun. exact demo_store_atMostOnePending.
Defined.

(** ** C4, C10: review of a request *)

Section find_facts.
Context {A : Type} (P : A → Prop) `{!∀ x, Decision (P x)}.

(** Overwriting the element [find] returns by one that still satisfies the
    test leaves it the element [find] returns. *)
Lemma list_find_insert_same (l : list A) i x y :
  list_find P l = Some (i, x) → P y → list_find P (<[i := y]> l) = Some (i, y).
Proof.
  intros (Hi & _ & Hleast)%list_find_Some Hy.
  apply list_find_Some. split_and!; [|done|].
  - apply list_lookup_insert_eq. by eapply lookup_lt_Some.
  - intros j z Hj Hlt. rewrite list_lookup_insert_ne in Hj by lia. eauto.
Qed.

(** [findIndex] on a list whose first match is known. *)
Lemma list_find_middle (l1 l2 : list A) x :
  ¬ Exists P l1 → P x → list_find P (l1 ++ x :: l2) = Some (length l1, x).
Proof.
  intros Hl1 Hx. rewrite list_find_app_r.
  - simpl. rewrite decide_True by done. simpl. done.
  - apply list_find_None. by apply not_Exists_Forall in Hl1.
Qed.

Lemma list_find_not_Exists (l : list A) : ¬ Exists P l → list_find P l = None.
Proof. intros Hl. apply list_find_None. by apply not_Exists_Forall in Hl. Qed.
End find_facts.

(** The request as [reviewConciergeRequest] leaves it. *)
Lemma reviewed_request_status req (approve : bool) time :
  req_status (mkRequest (req_id req) (req_user req)
                (if approve then Approved else Rejected)
                (requestedAt req) (Some time) (reviewedBy req)) ≠ Pending.
Proof. by destruct approve. Qed.

(** C4. [review(eventId, requestId, decision, reviewerId)] fails with
    [NotFound] when the event does not exist and when no request of the event
    has the id; it fails with [Conflict] (a 400 [HttpException]), changing
    nothing, when the request with the id is not [Pending]; on a [Pending]
    request it sets the status to [Approved] or [Rejected] after the decision
    and [reviewedAt] to [now], and a second review of that request, whatever
    its decision, is a [Conflict] and no silent success. *)
Theorem review_outcomes :
  (∀ env st eventId requestId approve reviewerId,
     events st !! eventId = None →
     ∃ exn, reviewConciergeRequest env eventId requestId approve reviewerId st
              = (inl exn, st) ∧ kind_of exn = NotFound) ∧
  (∀ env st eventId requestId approve reviewerId event,
     events st !! eventId = Some event →
     ¬ Exists (λ r, req_id r = requestId) (conciergeRequests event) →
     ∃ exn, reviewConciergeRequest env eventId requestId approve reviewerId st
              = (inl exn, st) ∧ kind_of exn = NotFound) ∧
  (∀ env st eventId requestId (approve : bool) reviewerId event i req,
     events st !! eventId = Some event →
     list_find (λ r, req_id r = requestId) (conciergeRequests event) = Some (i, req) →
     req_status req ≠ Pending →
     ∃ exn, reviewConciergeRequest env eventId requestId approve reviewerId st
              = (inl exn, st) ∧
            exn = HttpException "Request already reviewed" BAD_REQUEST ∧
            kind_of exn = Conflict) ∧
  (∀ env st eventId requestId (approve : bool) reviewerId event i req,
     events st !! eventId = Some event →
     list_find (λ r, req_id r = requestId) (conciergeRequests event) = Some (i, req) →
     req_status req = Pending →
     eventSave env = Committed →
     let req' := mkRequest (req_id req) (req_user req)
                   (if approve then Approved else Rejected)
                   (requestedAt req) (Some (now env)) (reviewedBy req) in
     let st' := set_events
                  <[eventId := set_conciergeRequests
                                 (<[i := req']> (conciergeRequests event)) event]> st in
     (∃ msg, reviewConciergeRequest env eventId requestId approve reviewerId st
               = (inr msg, st')) ∧
     ∀ env2 approve2 reviewerId2,
       ∃ exn, reviewConciergeRequest env2 eventId requestId approve2 reviewerId2 st'
                = (inl exn, st') ∧ kind_of exn = Conflict).
Proof.
  split_and!.
  - intros env st eventId requestId approve reviewerId Hev.
    eexists. unfold_service. rewrite Hev. done.
  - intros env st eventId requestId approve reviewerId event Hev Hnone.
    eexists. unfold_service. rewrite Hev.
    rewrite (list_find_not_Exists _ _ Hnone). done.
  - intros env st eventId requestId approve reviewerId event i req Hev Hfind Hst.
    eexists. unfold_service. rewrite Hev, Hfind.
    rewrite decide_True by done. done.
  - intros env st eventId requestId approve reviewerId event i req Hev Hfind Hst Hsave
      req' st'.
    split.
    + eexists. unfold_service. rewrite Hev, Hfind, Hsave.
      rewrite decide_False by (intros ?; done). done.
    + intros env2 approve2 reviewerId2. eexists. unfold_service.
      subst st'. simpl. rewrite lookup_insert_eq. simpl.
      erewrite list_find_insert_same; [| exact Hfind |].
      * rewrite decide_True by apply reviewed_request_status. done.
      * simpl. by apply list_find_Some in Hfind as (_ & ? & _).
Qed.

(** On [demo_store_pending] the admin approves the pending request [r2]; the
    rejected request [r1] cannot be reviewed again, nor can [r2] afterwards;
    an unknown request and an unknown event are [NotFound]. *)
Lemma review_outcomes_witness :
  (∃ exn, reviewConciergeRequest (env_ok 50 "r9") "e9" "r2" true "admin" demo_store_pending
            = (inl exn, demo_store_pending) ∧ kind_of exn = NotFound) ∧
  (∃ exn, reviewConciergeRequest (env_ok 50 "r9") "e1" "r7" true "admin" demo_store_pending
            = (inl exn, demo_store_pending) ∧ kind_of exn = NotFound) ∧
  (∃ exn, reviewConciergeRequest (env_ok 50 "r9") "e1" "r1" true "admin" demo_store_pending
            = (inl exn, demo_store_pending) ∧ kind_of exn = Conflict) ∧
  let st' := set_events
               <["e1" := mkEvent ["m0"]
                           [demo_rejected;
                            mkRequest "r2" "c1" Approved 30%Z (Some 50%Z) None]]>
               demo_store_pending in
  (∃ msg, reviewConciergeRequest (env_ok 50 "r9") "e1" "r2" true "admin" demo_store_pending
            = (inr msg, st')) ∧
  (∃ exn, reviewConciergeRequest (env_ok 60 "r9") "e1" "r2" false "admin2" st'
            = (inl exn, st') ∧ kind_of exn = Conflict).
Proof.
  destruct review_outcomes as (Hnoev & Hnoreq & Hdone & Hok).
  split_and!.
  - apply Hnoev. reflexivity.
  - apply (Hnoreq _ _ _ _ _ _ demo_event_pending); [reflexivity|decide_false].
  - destruct (Hdone (env_ok 50 "r9") demo_store_pending "e1" "r1" true "admin"
                demo_event_pending 0 demo_rejected) as (exn & Hrun & _ & Hkind).
    + reflexivity.
    + vm_compute. reflexivity.
    + simpl. discriminate.
    + exists exn. split; assumption.
  - intros st'.
    destruct (Hok (env_ok 50 "r9") demo_store_pending "e1" "r2" true "admin"
                demo_event_pending 1 demo_pending) as [Hfirst Hsecond];
      [reflexivity | vm_compute; reflexivity | reflexivity | reflexivity |].
    split; [exact Hfirst | exact (Hsecond (env_ok 60 "r9") false "admin2")].
Defined.

(** C10. The reviewer's identity has no influence on a review: two reviews
    that differ only in [reviewerId] return the same result and leave the same
    store, and a review leaves the [reviewedBy] field of every request of
    every event as it was. *)
Theorem review_ignores_reviewer :
  (∀ env st eventId requestId approve reviewerId1 reviewerId2,
     reviewConciergeRequest env eventId requestId approve reviewerId1 st
     = reviewConciergeRequest env eventId requestId approve reviewerId2 st) ∧
  (∀ env st eventId requestId approve reviewerId id event',
     events (reviewConciergeRequest env eventId requestId approve reviewerId st).2 !! id
       = Some event' →
     ∃ event, events st !! id = Some event ∧
              reviewedBy <$> conciergeRequests event'
              = reviewedBy <$> conciergeRequests event).
Proof.
  split.
  - reflexivity.
  - intros env st eventId requestId approve reviewerId id event'.
    unfold_service. simpl. intros H.
    repeat (case_match; simplify_eq/=; try (eexists; split; [eassumption|reflexivity])).
    all: rewrite lookup_insert in H; case_decide; simplify_eq/=.
    all: try (eexists; split; [eassumption|reflexivity]).
    all: eexists; split; [eassumption|].
    all: match goal with H : list_find _ _ = Some _ |- _ =>
           apply list_find_Some in H as (Hi & _ & _) end.
    all: rewrite list_fmap_insert; simpl; rewrite list_insert_id; [done|].
    all: by rewrite list_lookup_fmap, Hi.
Qed.

(** Two admins approving [r2] on [demo_store_pending] get the same answer and
    the same store, in which no request names a reviewer. *)
Lemma review_ignores_reviewer_witness :
  reviewConciergeRequest (env_ok 50 "r9") "e1" "r2" true "admin" demo_store_pending
  = reviewConciergeRequest (env_ok 50 "r9") "e1" "r2" true "admin2" demo_store_pending ∧
  ∃ event, events demo_store_pending !! "e1" = Some event ∧
           [None; None] = reviewedBy <$> conciergeRequests event.
Proof.
  destruct review_ignores_reviewer as [Hsame Hby].
  split; [apply Hsame|].
  destruct (Hby (env_ok 50 "r9") demo_store_pending "e1" "r2" true "admin" "e1"
              (mkEvent ["m0"]
                 [demo_rejected; mkRequest "r2" "c1" Approved 30%Z (Some 50%Z) None]))
    as (event & Hev & Heq).
  - vm_compute. reflexivity.
  - exists event. split; [exact Hev | exact Heq].
Defined.

(** ** C7: cancellation of a request *)

(** C7. [cancel(eventId, userId)] fails with [NotFound], changing nothing,
    when the event does not exist and when the user has no [Pending] request
    on it, so also when all requests of the user are [Approved] or
    [Rejected]; otherwise it removes the first [Pending] request of the user
    in request order from [conciergeRequests] and leaves every other request,
    later [Pending] requests of the same user included, in place and in
    order. *)
Theorem cancel_removes_first_pending :
  (∀ env st eventId userId,
     events st !! eventId = None →
     ∃ exn, cancelConciergeRequest env eventId userId st = (inl exn, st) ∧
            kind_of exn = NotFound) ∧
  (∀ env st eventId userId event,
     events st !! eventId = Some event →
     ¬ Exists (isPendingFor userId) (conciergeRequests event) →
     ∃ exn, cancelConciergeRequest env eventId userId st = (inl exn, st) ∧
            exn = NotFoundException "No pending request found" ∧
            kind_of exn = NotFound) ∧
  (∀ env st eventId userId event,
     events st !! eventId = Some event →
     Forall (λ r, req_user r = userId → req_status r = Approved ∨ req_status r = Rejected)
       (conciergeRequests event) →
     ∃ exn, cancelConciergeRequest env eventId userId st = (inl exn, st) ∧
            kind_of exn = NotFound) ∧
  (∀ env st eventId userId event before req after,
     events st !! eventId = Some event →
     conciergeRequests event = before ++ req :: after →
     ¬ Exists (isPendingFor userId) before →
     isPendingFor userId req →
     eventSave env = Committed →
     cancelConciergeRequest env eventId userId st =
       (inr "Request cancelled",
        set_events <[eventId := set_conciergeRequests (before ++ after) event]> st)).
Proof.
  split_and!.
  - intros env st eventId userId Hev.
    exists (NotFoundException "Event not found"). unfold_service. by rewrite Hev.
  - intros env st eventId userId event Hev Hnone.
    eexists. unfold_service. rewrite Hev.
    rewrite (list_find_not_Exists _ _ Hnone). done.
  - intros env st eventId userId event Hev Hall.
    eexists. unfold_service. rewrite Hev.
    rewrite list_find_not_Exists; [done|].
    intros (r & Hr & Hu & Hp)%Exists_exists.
    rewrite Forall_forall in Hall.
    destruct (Hall r Hr Hu) as [Hs|Hs]; congruence.
  - intros env st eventId userId event before req after Hev Hsplit Hbefore Hreq Hsave.
    unfold_service. rewrite Hev, Hsplit, Hsave.
    rewrite (list_find_middle _ _ _ _ Hbefore Hreq).
    by rewrite delete_middle.
Qed.

(** On [demo_store_race] the concierge [c1] cancels: of the two [Pending]
    requests [r3] and [r4], [r3] goes and [r4] stays. On [demo_store], where
    the only request of [c1] is [Rejected], cancelling is [NotFound]. *)
Lemma cancel_removes_first_pending_witness :
  (∃ exn, cancelConciergeRequest (env_ok 60 "r9") "e1" "c7" demo_store_race
            = (inl exn, demo_store_race) ∧ kind_of exn = NotFound) ∧
  (∃ exn, cancelConciergeRequest (env_ok 60 "r9") "e1" "c1" demo_store
            = (inl exn, demo_store) ∧ kind_of exn = NotFound) ∧
  cancelConciergeRequest (env_ok 60 "r9") "e1" "c1" demo_store_race =
    (inr "Request cancelled",
     set_events
       <["e1" := mkEvent []
                   [mkRequest "r1" "c2" Pending 5%Z None None;
                    mkRequest "r2" "c1" Approved 10%Z (Some 20%Z) None;
                    mkRequest "r4" "c1" Pending 31%Z None None]]>
       demo_store_race).
Proof.
  destruct cancel_removes_first_pending as (_ & Hnone & Hterminal & Hfirst).
  split_and!.
  - destruct (Hnone (env_ok 60 "r9") demo_store_race "e1" "c7" demo_event_race)
      as (exn & Hrun & _ & Hkind); [reflexivity | decide_false |].
    exists exn. split; assumption.
  - apply (Hterminal _ _ _ _ demo_event); [reflexivity|].
    refine (bool_decide_eq_true_1 _ _). vm_compute. reflexivity.
  - apply (Hfirst (env_ok 60 "r9") demo_store_race "e1" "c1" demo_event_race
             [mkRequest "r1" "c2" Pending 5%Z None None;
              mkRequest "r2" "c1" Approved 10%Z (Some 20%Z) None]
             (mkRequest "r3" "c1" Pending 30%Z None None)
             [mkRequest "r4" "c1" Pending 31%Z None None]).
    + reflexivity.
    + reflexivity.
    + decide_false.
    + decide_true.
    + reflexivity.
Defined.

(** ** C5, C6: check-in *)

Lemma checkIn_unauthorized env st eventId phone conciergeId event :
  events st !! eventId = Some event →
  ¬ Exists (isApprovedFor conciergeId) (conciergeRequests event) →
  checkInAttendee env eventId phone conciergeId st =
    (inl (UnauthorizedException "You are not an approved concierge for this event"), st).
Proof.
  intros Hev Hno. unfold_service. rewrite Hev.
  by rewrite bool_decide_eq_false_2.
Qed.

Lemma checkIn_no_attendee env st eventId phone conciergeId event :
  events st !! eventId = Some event →
  Exists (isApprovedFor conciergeId) (conciergeRequests event) →
  filter (matchesQuery phone eventId) (attendees st) = [] →
  checkInAttendee env eventId phone conciergeId st =
    (inl (NotFoundException "Attendee not found for this event"), st).
Proof.
  intros Hev Hok Hnone. unfold_service. rewrite Hev.
  rewrite bool_decide_eq_true_2 by done. simpl. by rewrite Hnone.
Qed.

Lemma checkIn_already env st eventId phone conciergeId event a rest :
  events st !! eventId = Some event →
  Exists (isApprovedFor conciergeId) (conciergeRequests event) →
  filter (matchesQuery phone eventId) (attendees st) = a :: rest →
  checkedIn a = true →
  checkInAttendee env eventId phone conciergeId st =
    (inl (HttpException "Attendee already checked in" BAD_REQUEST), st).
Proof.
  intros Hev Hok Hfound Hin. unfold_service. rewrite Hev.
  rewrite bool_decide_eq_true_2 by done. simpl. by rewrite Hfound, Hin.
Qed.

(** With unique ids, the record [update] reaches by id is the record the
    query returned. *)
Lemma list_find_by_id (before after : list Attendee) a :
  NoDup (att_id <$> (before ++ a :: after)) →
  list_find (λ b, att_id b = att_id a) (before ++ a :: after) = Some (length before, a).
Proof.
  intros Hnd. apply list_find_middle; [|done].
  intros (b & Hb & Hid)%Exists_exists.
  rewrite fmap_app, fmap_cons in Hnd.
  apply NoDup_app in Hnd as (_ & Hdisj & _).
  apply (Hdisj (att_id b)).
  - apply list_elem_of_fmap. eauto.
  - rewrite Hid. by left.
Qed.

Lemma checkIn_first env st eventId phone conciergeId event a rest :
  events st !! eventId = Some event →
  Exists (isApprovedFor conciergeId) (conciergeRequests event) →
  filter (matchesQuery phone eventId) (attendees st) = a :: rest →
  checkedIn a = false →
  attendeeUpdate env = Committed →
  uniqueAttendeeIds st →
  ∃ before after,
    attendees st = before ++ a :: after ∧
    Forall (λ b, ¬ matchesQuery phone eventId b) before ∧
    checkInAttendee env eventId phone conciergeId st =
      (inr "Attendee checked in successfully",
       mkStore (events st) (users st)
         (before ++ checkInFields conciergeId (now env) a :: after)).
Proof.
  intros Hev Hok Hfound Hin Hup Hnd.
  destruct (head_filter_Some (matchesQuery phone eventId) (attendees st) a)
    as (before & after & Hsplit & Hbefore); [by rewrite Hfound|].
  exists before, after. split_and!; [done..|].
  unfold uniqueAttendeeIds in Hnd. rewrite Hsplit in Hnd.
  unfold_service. rewrite Hev.
  rewrite bool_decide_eq_true_2 by done. simpl.
  rewrite Hfound, Hin, Hup. rewrite Hsplit, (list_find_by_id _ _ _ Hnd).
  unfold set_attendees. simpl. rewrite Hsplit.
  rewrite insert_app_r_alt by lia. by rewrite Nat.sub_diag.
Qed.

(** *** How calls change the attendee collection *)

Lemma attendee_step_id a a' : attendee_step a a' → att_id a' = att_id a.
Proof. by intros [->|(_ & c & t & ->)]. Qed.

Lemma attendee_step_query phone eventId a a' :
  attendee_step a a' → matchesQuery phone eventId a' ↔ matchesQuery phone eventId a.
Proof. by intros [->|(_ & c & t & ->)]. Qed.

Lemma attendee_step_checked a a' : attendee_step a a' → checkedIn a = true → a' = a.
Proof. intros [->|(Hf & _)] Ht; [done|congruence]. Qed.

Lemma attendee_step_trans a b c : attendee_step a b → attendee_step b c → attendee_step a c.
Proof.
  intros [->|(Hf & by_ & t & ->)] Hbc; [done|].
  apply attendee_step_checked in Hbc as ->; [|done].
  right. eauto.
Qed.

Lemma attendees_step_ids (l l' : list Attendee) :
  Forall2 attendee_step l l' → att_id <$> l' = att_id <$> l.
Proof.
  induction 1 as [|a a' l l' Ha _ IH]; [done|].
  rewrite !fmap_cons. f_equal; [by apply attendee_step_id|done].
Qed.

Lemma Forall2_attendee_step_refl (l : list Attendee) : Forall2 attendee_step l l.
Proof. induction l; constructor; [by left|done]. Qed.

Lemma unique_id_eq (l : list Attendee) a b :
  NoDup (att_id <$> l) → a ∈ l → b ∈ l → att_id a = att_id b → a = b.
Proof.
  intros Hnd (i & Hi)%list_elem_of_lookup (j & Hj)%list_elem_of_lookup Hid.
  assert (i = j) as ->; [|congruence].
  eapply (NoDup_lookup _ i j (att_id a) Hnd).
  - by rewrite list_lookup_fmap, Hi.
  - by rewrite list_lookup_fmap, Hj, Hid.
Qed.

(** Every call moves every attendee record by one [attendee_step]. *)
Lemma step_attendees env op st :
  uniqueAttendeeIds st →
  Forall2 attendee_step (attendees st) (attendees (step env op st).2).
Proof.
  intros Hnd. destruct op; unfold_service; simpl.
  all: repeat (case_match; simplify_eq/=; try apply Forall2_attendee_step_refl).
  match goal with
  | Hq : filter ?P ?l = ?a :: _, Hf : list_find _ ?l = Some (?i, ?b) |- _ =>
      apply list_find_Some in Hf as (Hi & Hid & _);
      assert (a ∈ filter P l) as [_ Hin]%list_elem_of_filter by (rewrite Hq; left);
      assert (b = a) as ->
        by (eapply unique_id_eq;
            [exact Hnd | by eapply list_elem_of_lookup_2 | done | done]);
      rewrite <- (list_insert_id l i a) at 1 by done
  end.
  apply Forall2_insert; [apply Forall2_attendee_step_refl|].
  right. split; [done|]. eauto.
Qed.

Lemma step_uniqueAttendeeIds env op st :
  uniqueAttendeeIds st → uniqueAttendeeIds (step env op st).2.
Proof.
  intros Hnd. unfold uniqueAttendeeIds.
  by rewrite (attendees_step_ids _ _ (step_attendees env op st Hnd)).
Qed.

Lemma run_attendees calls st :
  uniqueAttendeeIds st →
  Forall2 attendee_step (attendees st) (attendees (run calls st)).
Proof.
  revert st. induction calls as [|[env op] calls IH]; intros st Hnd; simpl.
  - apply Forall2_attendee_step_refl.
  - eapply Forall2_trans; [|by apply step_attendees|apply IH].
    + intros a b c. apply attendee_step_trans.
    + by apply step_uniqueAttendeeIds.
Qed.

(** The first match of a query stays the first match, and stays as it is once
    it is checked in. *)
Lemma attendees_step_first_match phone eventId (before after l' : list Attendee) a :
  Forall2 attendee_step (before ++ a :: after) l' →
  Forall (λ b, ¬ matchesQuery phone eventId b) before →
  matchesQuery phone eventId a →
  checkedIn a = true →
  l' !! length before = Some a ∧
  ∃ rest, filter (matchesQuery phone eventId) l' = a :: rest.
Proof.
  intros Hstep Hbefore Ha Hin.
  apply Forall2_app_inv_l in Hstep as (before' & tail' & Hb & Htail & ->).
  apply Forall2_cons_inv_l in Htail as (a' & after' & Ha' & _ & ->).
  apply attendee_step_checked in Ha' as ->; [|done].
  split.
  - rewrite (Forall2_length _ _ _ Hb). by apply list_lookup_middle.
  - exists (filter (matchesQuery phone eventId) after').
    rewrite filter_app, filter_cons_True by done.
    replace (filter (matchesQuery phone eventId) before') with (@nil Attendee); [done|].
    symmetry. apply filter_nil_not_Exists.
    intros (b' & Hb' & Hq)%Exists_exists.
    apply list_elem_of_lookup in Hb' as (i & Hi).
    destruct (Forall2_lookup_r _ _ _ _ _ Hb Hi) as (b & Hbi & Hbb).
    rewrite Forall_lookup in Hbefore.
    apply (Hbefore i b Hbi). by apply (attendee_step_query _ _ _ _ Hbb).
Qed.

(** *** Approved concierges stay approved *)

Lemma requests_step_approved l l' conciergeId :
  requests_step l l' →
  Exists (isApprovedFor conciergeId) l → Exists (isApprovedFor conciergeId) l'.
Proof.
  intros Hstep (x & Hx & Hu & Hs)%Exists_exists.
  apply Exists_exists. exists x. split; [|done].
  destruct Hstep as [l|l r Hr Hnone|l i r r' Hi Hr Hr'|l i r Hi Hr].
  - done.
  - apply elem_of_app. by left.
  - apply list_elem_of_lookup in Hx as (j & Hj).
    apply list_elem_of_lookup. exists j.
    rewrite list_lookup_insert_ne; [done|]. intros ->. congruence.
  - apply list_elem_of_lookup in Hx as (j & Hj).
    assert (j ≠ i) by (intros ->; congruence).
    apply list_elem_of_lookup.
    destruct (decide (j < i)).
    + exists j. by rewrite list_lookup_delete_lt.
    + exists (pred j). rewrite list_lookup_delete_ge by lia.
      by replace (S (pred j)) with j by lia.
Qed.

(** No call deletes an event. *)
Lemma step_events_kept env op st eventId :
  events (step env op st).2 !! eventId = None → events st !! eventId = None.
Proof.
  destruct op; unfold_service; simpl; intros H.
  all: repeat (case_match; simplify_eq/=; try done).
  all: try (rewrite lookup_insert in H; case_decide; simplify_eq/=; done).
Qed.

Lemma step_approved env op st eventId event conciergeId :
  events st !! eventId = Some event →
  Exists (isApprovedFor conciergeId) (conciergeRequests event) →
  ∃ event', events (step env op st).2 !! eventId = Some event' ∧
            Exists (isApprovedFor conciergeId) (conciergeRequests event').
Proof.
  intros Hev Hok.
  destruct (events (step env op st).2 !! eventId) as [event'|] eqn:Hev'.
  - exists event'. split; [done|].
    apply step_requests in Hev' as (e & He & Hstep).
    eapply requests_step_approved; [done|]. congruence.
  - apply step_events_kept in Hev'. congruence.
Qed.

Lemma run_approved calls st eventId event conciergeId :
  events st !! eventId = Some event →
  Exists (isApprovedFor conciergeId) (conciergeRequests event) →
  ∃ event', events (run calls st) !! eventId = Some event' ∧
            Exists (isApprovedFor conciergeId) (conciergeRequests event').
Proof.
  revert st event. induction calls as [|[env op] calls IH]; intros st event Hev Hok; simpl.
  - eauto.
  - destruct (step_approved env op st eventId event conciergeId Hev Hok)
      as (event1 & Hev1 & Hok1).
    by eapply IH.
Qed.

Lemma run_uniqueAttendeeIds calls st :
  uniqueAttendeeIds st → uniqueAttendeeIds (run calls st).
Proof.
  intros Hnd. unfold uniqueAttendeeIds.
  by rewrite (attendees_step_ids _ _ (run_attendees calls st Hnd)).
Qed.

(** C5. The first [checkIn] on an attendee that is not checked in, by an
    approved concierge, succeeds and sets [checkedIn = true], [checkedInBy]
    to the concierge and [checkedInTime] to [now] on that record; after any
    further calls of the engine, a [checkIn] of the same attendee fails with
    [Conflict] (a 400 [HttpException]) and changes nothing, the record being
    the one the first call wrote. A checked-in record is never changed by
    any sequence of calls, so [checkedIn] never returns to [false], and a
    [checkIn] that reaches a checked-in attendee is a [Conflict]. *)
Theorem checkIn_at_most_once :
  (∀ env st eventId phone concierge event a rest,
     events st !! eventId = Some event →
     Exists (isApprovedFor concierge) (conciergeRequests event) →
     filter (matchesQuery phone eventId) (attendees st) = a :: rest →
     checkedIn a = false →
     attendeeUpdate env = Committed →
     uniqueAttendeeIds st →
     ∃ before after,
       attendees st = before ++ a :: after ∧
       let a' := mkAttendee (att_id a) (att_event a) (att_phone a)
                   true (Some concierge) (Some (now env)) in
       let st1 := mkStore (events st) (users st) (before ++ a' :: after) in
       checkInAttendee env eventId phone concierge st
         = (inr "Attendee checked in successfully", st1) ∧
       ∀ calls env2,
         let st2 := run calls st1 in
         attendees st2 !! length before = Some a' ∧
         ∃ exn, checkInAttendee env2 eventId phone concierge st2 = (inl exn, st2) ∧
                exn = HttpException "Attendee already checked in" BAD_REQUEST ∧
                kind_of exn = Conflict) ∧
  (∀ calls st i a,
     uniqueAttendeeIds st →
     attendees st !! i = Some a → checkedIn a = true →
     attendees (run calls st) !! i = Some a) ∧
  (∀ env st eventId phone concierge event a rest,
     events st !! eventId = Some event →
     Exists (isApprovedFor concierge) (conciergeRequests event) →
     filter (matchesQuery phone eventId) (attendees st) = a :: rest →
     checkedIn a = true →
     ∃ exn, checkInAttendee env eventId phone concierge st = (inl exn, st) ∧
            kind_of exn = Conflict).
Proof.
  split_and!.
  - intros env st eventId phone concierge event a rest Hev Hok Hfound Hin Hup Hnd.
    destruct (checkIn_first env st eventId phone concierge event a rest)
      as (before & after & Hsplit & Hbefore & Hrun); [done..|].
    exists before, after. split; [done|]. intros a' st1. split; [exact Hrun|].
    intros calls env2 st2.
    assert (matchesQuery phone eventId a') as Hq.
    { assert (a ∈ filter (matchesQuery phone eventId) (attendees st)) as Ha
        by (rewrite Hfound; left).
      by apply list_elem_of_filter in Ha as [? _]. }
    assert (uniqueAttendeeIds st1) as Hnd1.
    { unfold uniqueAttendeeIds in *. subst st1. simpl.
      rewrite Hsplit in Hnd. by rewrite fmap_app, fmap_cons in *. }
    destruct (attendees_step_first_match phone eventId before after
                (attendees st2) a') as (Hkept & rest2 & Hfound2); [|done..|].
    { apply (run_attendees calls st1 Hnd1). }
    split; [done|].
    destruct (run_approved calls st1 eventId event concierge) as (event2 & Hev2 & Hok2);
      [done..|].
    eexists. split_and!; [|done..].
    by eapply checkIn_already.
  - intros calls st i a Hnd Hi Hin.
    destruct (Forall2_lookup_l _ _ _ _ _ (run_attendees calls st Hnd) Hi)
      as (a' & Hi' & Hstep).
    by apply attendee_step_checked in Hstep as ->.
  - intros env st eventId phone concierge event a rest Hev Hok Hfound Hin.
    eexists. split; [by eapply checkIn_already|done].
Qed.

(** On [demo_store_approved] the approved concierge [c1] checks in the
    attendee with the phone; after a further request by another concierge,
    the record is as the first call left it and a second check-in is a
    [Conflict]. *)
Lemma checkIn_at_most_once_witness :
  let a' := mkAttendee "a1" "e1" "+15551234567" true (Some "c1") (Some 70%Z) in
  let st1 := mkStore (events demo_store_approved) (users demo_store_approved)
               [a'; mkAttendee "a2" "e1" "+15551234567" false None None] in
  let st2 := run [(env_ok 75 "r5", request "e1" "c2")] st1 in
  checkInAttendee (env_ok 70 "r9") "e1" "+15551234567" "c1" demo_store_approved
    = (inr "Attendee checked in successfully", st1) ∧
  attendees st2 !! 0 = Some a' ∧
  (∃ exn, checkInAttendee (env_ok 80 "r9") "e1" "+15551234567" "c1" st2 = (inl exn, st2) ∧
          kind_of exn = Conflict) ∧
  attendees (run [(env_ok 90 "r9", checkIn "e1" "+15551234567" "c1")] st2) !! 0 = Some a'.
Proof.
  intros a' st1 st2.
  destruct checkIn_at_most_once as (Hfirst & Hkept & _).
  destruct (Hfirst (env_ok 70 "r9") demo_store_approved "e1" "+15551234567" "c1"
              demo_event_approved
              (mkAttendee "a1" "e1" "+15551234567" false None None)
              [mkAttendee "a2" "e1" "+15551234567" false None None])
    as (before & after & Hsplit & Hrun & Hlater).
  - reflexivity.
  - decide_true.
  - vm_compute. reflexivity.
  - reflexivity.
  - reflexivity.
  - decide_true.
  - assert (before = [] ∧ after = [mkAttendee "a2" "e1" "+15551234567" false None None])
      as [-> ->].
    { destruct before as [|b [|b' before]]; simpl in Hsplit.
      - by injection Hsplit as <-.
      - discriminate Hsplit.
      - destruct before; discriminate Hsplit. }
    specialize (Hlater [(env_ok 75 "r5", request "e1" "c2")] (env_ok 80 "r9")).
    simpl in Hlater. destruct Hlater as (Hrec & exn & Hagain & _ & Hkind).
    split_and!.
    + exact Hrun.
    + exact Hrec.
    + exists exn. split; [exact Hagain | exact Hkind].
    + apply Hkept; [|exact Hrec|reflexivity].
      refine (bool_decide_eq_true_1 _ _). vm_compute. reflexivity.
Defined.

(** C6. [checkIn(eventId, phone, concierge)] on an existing event fails with
    [Forbidden] (the service's [UnauthorizedException]) when no [Approved]
    request of the event is the concierge's; for an approved concierge it fails
    with [NotFound] when no attendee has the event and the phone; when several
    attendees have them, the call acts on the first one returned: it alone
    decides between [Conflict] and success, and it alone is updated. *)
Theorem checkIn_authorization_and_lookup :
  (∀ env st eventId phone concierge event,
     events st !! eventId = Some event →
     ¬ Exists (isApprovedFor concierge) (conciergeRequests event) →
     ∃ exn, checkInAttendee env eventId phone concierge st = (inl exn, st) ∧
            exn = UnauthorizedException "You are not an approved concierge for this event" ∧
            kind_of exn = Forbidden) ∧
  (∀ env st eventId phone concierge event,
     events st !! eventId = Some event →
     Exists (isApprovedFor concierge) (conciergeRequests event) →
     filter (matchesQuery phone eventId) (attendees st) = [] →
     ∃ exn, checkInAttendee env eventId phone concierge st = (inl exn, st) ∧
            exn = NotFoundException "Attendee not found for this event" ∧
            kind_of exn = NotFound) ∧
  (∀ env st eventId phone concierge event a rest,
     events st !! eventId = Some event →
     Exists (isApprovedFor concierge) (conciergeRequests event) →
     filter (matchesQuery phone eventId) (attendees st) = a :: rest →
     (checkedIn a = true →
      checkInAttendee env eventId phone concierge st
        = (inl (HttpException "Attendee already checked in" BAD_REQUEST), st)) ∧
     (checkedIn a = false → attendeeUpdate env = Committed → uniqueAttendeeIds st →
      ∃ before after,
        attendees st = before ++ a :: after ∧
        checkInAttendee env eventId phone concierge st
          = (inr "Attendee checked in successfully",
             mkStore (events st) (users st)
               (before ++ checkInFields concierge (now env) a :: after)))).
Proof.
  split_and!.
  - intros env st eventId phone concierge event Hev Hno.
    eexists. split_and!; [by eapply checkIn_unauthorized|done..].
  - intros env st eventId phone concierge event Hev Hok Hnone.
    eexists. split_and!; [by eapply checkIn_no_attendee|done..].
  - intros env st eventId phone concierge event a rest Hev Hok Hfound. split.
    + intros Hin. by eapply checkIn_already.
    + intros Hin Hup Hnd.
      destruct (checkIn_first env st eventId phone concierge event a rest)
        as (before & after & Hsplit & _ & Hrun); [done..|].
      by exists before, after.
Qed.

(** On [demo_store_approved] the concierge [c2] is refused, an unknown phone
    is [NotFound], and of the two attendees with the phone the first, [a1],
    is the one checked in. *)
Lemma checkIn_authorization_and_lookup_witness :
  (∃ exn, checkInAttendee (env_ok 70 "r9") "e1" "+15551234567" "c2" demo_store_approved
            = (inl exn, demo_store_approved) ∧ kind_of exn = Forbidden) ∧
  (∃ exn, checkInAttendee (env_ok 70 "r9") "e1" "+10000000000" "c1" demo_store_approved
            = (inl exn, demo_store_approved) ∧ kind_of exn = NotFound) ∧
  ∃ before after,
    attendees demo_store_approved
      = before ++ mkAttendee "a1" "e1" "+15551234567" false None None :: after ∧
    checkInAttendee (env_ok 70 "r9") "e1" "+15551234567" "c1" demo_store_approved
      = (inr "Attendee checked in successfully",
         mkStore (events demo_store_approved) (users demo_store_approved)
           (before ++ mkAttendee "a1" "e1" "+15551234567" true (Some "c1") (Some 70%Z)
              :: after)).
Proof.
  destruct checkIn_authorization_and_lookup as (Hauth & Hnone & Hfirst).
  split_and!.
  - destruct (Hauth (env_ok 70 "r9") demo_store_approved "e1" "+15551234567" "c2"
                demo_event_approved) as (exn & Hrun & _ & Hkind);
      [reflexivity | decide_false |].
    exists exn. split; assumption.
  - destruct (Hnone (env_ok 70 "r9") demo_store_approved "e1" "+10000000000" "c1"
                demo_event_approved) as (exn & Hrun & _ & Hkind);
      [reflexivity | decide_true | vm_compute; reflexivity |].
    exists exn. split; assumption.
  - destruct (Hfirst (env_ok 70 "r9") demo_store_approved "e1" "+15551234567" "c1"
                demo_event_approved
                (mkAttendee "a1" "e1" "+15551234567" false None None)
                [mkAttendee "a2" "e1" "+15551234567" false None None])
      as [_ Hnew]; [reflexivity | decide_true | vm_compute; reflexivity |].
    apply Hnew; [reflexivity | reflexivity | decide_true].
Defined.

(** ** C3: joining an event *)

(** The rendering of a populated document is never the hexadecimal string of
    an id, so the membership test of [addMarketerToEvent] finds nobody and
    the filter of [removeMarketerFromEvent] drops nobody. *)
Lemma populated_never_matches (refs : list Id) (id : Id) :
  ¬ Exists (λ m, Document_toString m = ObjectId_toString id) (populate refs).
Proof. intros (m & _ & Heq)%Exists_exists. discriminate Heq. Qed.

Lemma populated_all_kept (refs : list Id) (id : Id) :
  filter (λ m, Document_toString m ≠ ObjectId_toString id) (populate refs) = populate refs.
Proof.
  induction (populate refs) as [|m docs IH]; [done|].
  rewrite filter_cons_True by discriminate. by rewrite IH.
Qed.

Lemma depopulate_populate (refs : list Id) : depopulate (populate refs) = refs.
Proof.
  unfold depopulate, populate. rewrite <- list_fmap_compose.
  induction refs as [|r refs IH]; [done|]. rewrite fmap_cons. simpl. by rewrite IH.
Qed.

Lemma depopulate_push (refs : list Id) (id : Id) :
  depopulate (populate refs ++ [PopulatedUser id]) = refs ++ [id].
Proof. unfold depopulate. rewrite fmap_app. fold (depopulate (populate refs)).
  by rewrite depopulate_populate. Qed.

Lemma event_eta (event : Event) :
  mkEvent (marketers event) (conciergeRequests event) = event.
Proof. by destruct event. Qed.

Lemma user_eta (user : User) : mkUser (role user) (eventParticipation user) = user.
Proof. by destruct user. Qed.

Lemma store_eta (st : Store) : mkStore (events st) (users st) (attendees st) = st.
Proof. by destruct st. Qed.

(** [eventParticipation] after [addEventParticipation]. *)
Lemma elem_of_added_participation (eventId : Id) (ps : list Id) :
  eventId ∈ (if decide (eventId ∈ ps) then ps else ps ++ [eventId]).
Proof. case_decide; [done|]. apply elem_of_app. right. by left. Qed.

Lemma join_forbidden env st eventId userId event user :
  events st !! eventId = Some event →
  users st !! userId = Some user →
  role user ≠ MARKETER →
  addMarketerToEvent env eventId userId st =
    (inl (UnauthorizedException "Only marketers can be added to events"), st).
Proof.
  intros Hev Hus Hrole. unfold_service. rewrite Hev, Hus. simpl.
  by rewrite decide_True.
Qed.

(** A [join] by a marketer, whether already a member or not, whose two
    writes are committed: the id is pushed and the event is added to the
    participation. *)
Lemma join_committed env st eventId userId event user :
  events st !! eventId = Some event →
  users st !! userId = Some user →
  role user = MARKETER →
  eventSave env = Committed →
  userWrite env = Committed →
  addMarketerToEvent env eventId userId st =
    (inr (mkEvent (marketers event ++ [userId]) (conciergeRequests event)),
     mkStore
       (<[eventId := mkEvent (marketers event ++ [userId]) (conciergeRequests event)]>
          (events st))
       (<[userId := mkUser (role user)
                      (if decide (eventId ∈ eventParticipation user)
                       then eventParticipation user
                       else eventParticipation user ++ [eventId])]> (users st))
       (attendees st)).
Proof.
  intros Hev Hus Hrole Hsave Hwrite. unfold_service. rewrite Hev, Hus. simpl.
  rewrite decide_False by (intros ?; done).
  rewrite bool_decide_eq_false_2 by apply populated_never_matches.
  rewrite depopulate_push, Hsave, Hwrite. simpl. rewrite Hus. simpl.
  by rewrite lookup_insert_eq.
Qed.

(** C3. The code at the failing input: on [demo_store] the marketer [m0] is
    in the [marketers] of [e1] already. The [join] is no no-op: the
    membership test compares the rendering of populated documents with a
    hexadecimal string and finds nobody, so [m0] is pushed a second time,
    both writes run, and a second [join] pushes [m0] a third time; when the
    user-side write fails, the [join] of the member fails with a 500. A user
    who is no marketer is refused as the claim says. *)
Theorem join_of_member_pushes_duplicate :
  "m0" ∈ marketers demo_event ∧
  addMarketerToEvent (env_ok 5 "r9") "e1" "m0" demo_store =
    (inr (mkEvent ["m0"; "m0"] [demo_rejected]),
     mkStore {[ "e1" := mkEvent ["m0"; "m0"] [demo_rejected] ]}
       (users demo_store) (attendees demo_store)) ∧
  (addMarketerToEvent (env_ok 5 "r9") "e1" "m0" demo_store).2 ≠ demo_store ∧
  (addMarketerToEvent (env_ok 6 "r9") "e1" "m0"
     (addMarketerToEvent (env_ok 5 "r9") "e1" "m0" demo_store).2).1
    = inr (mkEvent ["m0"; "m0"; "m0"] [demo_rejected]) ∧
  (addMarketerToEvent env_user_write_fails "e1" "m0" demo_store).1 =
    inl (HttpException "Failed to add marketer to event: connection reset"
           INTERNAL_SERVER_ERROR) ∧
  addMarketerToEvent (env_ok 5 "r9") "e1" "c1" demo_store =
    (inl (UnauthorizedException "Only marketers can be added to events"), demo_store).
Proof.
  assert (addMarketerToEvent (env_ok 5 "r9") "e1" "m0" demo_store =
            (inr (mkEvent ["m0"; "m0"] [demo_rejected]),
             mkStore {[ "e1" := mkEvent ["m0"; "m0"] [demo_rejected] ]}
               (users demo_store) (attendees demo_store))) as Hrun.
  { rewrite (join_committed (env_ok 5 "r9") demo_store "e1" "m0" demo_event
               (mkUser MARKETER ["e1"])) by reflexivity.
    vm_compute. reflexivity. }
  split_and!.
  - decide_true.
  - exact Hrun.
  - rewrite Hrun. simpl. intros Heq.
    assert (events demo_store !! "e1" = Some (mkEvent ["m0"; "m0"] [demo_rejected])) as Hev
      by (by rewrite <- Heq).
    vm_compute in Hev. discriminate Hev.
  - rewrite Hrun. simpl.
    rewrite (join_committed (env_ok 6 "r9") _ "e1" "m0"
               (mkEvent ["m0"; "m0"] [demo_rejected]) (mkUser MARKETER ["e1"]))
      by reflexivity.
    reflexivity.
  - vm_compute. reflexivity.
  - apply (join_forbidden _ _ _ _ demo_event (mkUser CONCIERGE []));
      [reflexivity | reflexivity | discriminate].
Qed.

(** ** C2: a join or leave with one write failed *)

Lemma leave_outcome_writes env st eventId userId event user :
  events st !! eventId = Some event →
  users st !! userId = Some user →
  let user' := mkUser (role user) (filter (λ e, e ≠ eventId) (eventParticipation user)) in
  (∀ msg, eventSave env = Committed → userWrite env = Failed msg →
     removeMarketerFromEvent env eventId userId st =
       (inl (HttpException ("Failed to remove marketer from event: " +:+ msg)
               INTERNAL_SERVER_ERROR),
        set_events <[eventId := event]> st)) ∧
  (∀ msg, eventSave env = Failed msg → userWrite env = Committed →
     removeMarketerFromEvent env eventId userId st =
       (inl (HttpException ("Failed to remove marketer from event: " +:+ msg)
               INTERNAL_SERVER_ERROR),
        set_users <[userId := user']> st)).
Proof.
  intros Hev Hus user'. split; intros msg Hsave Hwrite.
  - unfold_service. rewrite Hev, Hsave, Hwrite.
    rewrite populated_all_kept, depopulate_populate.
    unfold set_marketers. by rewrite event_eta.
  - unfold_service. rewrite Hev, Hsave, Hwrite. simpl. rewrite Hus. done.
Qed.

Lemma join_outcome_writes env st eventId userId event user :
  events st !! eventId = Some event →
  users st !! userId = Some user →
  role user = MARKETER →
  let event' := set_marketers (marketers event ++ [userId]) event in
  let user' := mkUser (role user)
                 (if decide (eventId ∈ eventParticipation user)
                  then eventParticipation user
                  else eventParticipation user ++ [eventId]) in
  (∀ msg, eventSave env = Committed → userWrite env = Failed msg →
     addMarketerToEvent env eventId userId st =
       (inl (HttpException ("Failed to add marketer to event: " +:+ msg)
               INTERNAL_SERVER_ERROR),
        set_events <[eventId := event']> st)) ∧
  (∀ msg, eventSave env = Failed msg → userWrite env = Committed →
     addMarketerToEvent env eventId userId st =
       (inl (HttpException ("Failed to add marketer to event: " +:+ msg)
               INTERNAL_SERVER_ERROR),
        set_users <[userId := user']> st)).
Proof.
  intros Hev Hus Hrole event' user'. split; intros msg Hsave Hwrite.
  - unfold_service. rewrite Hev, Hus. simpl.
    rewrite decide_False by (intros ?; done).
    rewrite bool_decide_eq_false_2 by apply populated_never_matches.
    rewrite depopulate_push, Hsave, Hwrite. done.
  - unfold_service. rewrite Hev, Hus. simpl.
    rewrite decide_False by (intros ?; done).
    rewrite bool_decide_eq_false_2 by apply populated_never_matches.
    rewrite depopulate_push, Hsave, Hwrite. simpl. rewrite Hus. done.
Qed.

(** C2, as the code has it. When a [join] by a marketer, or a [leave],
    reaches its two writes and exactly one of them fails, the call does not
    return success: it throws an [HttpException] with status
    [INTERNAL_SERVER_ERROR], of the generic kind, whose message ends in the
    message of the failed write; the write that was committed stays in the
    store, and the failed one is not retried. The event-side write of a
    [join] is the event with the id pushed; the event-side write of a
    [leave] is the event as it was. *)
Theorem partial_write_is_generic_failure :
  ∀ env st eventId userId event user msg,
    events st !! eventId = Some event →
    users st !! userId = Some user →
    (eventSave env = Committed ∧ userWrite env = Failed msg) ∨
    (eventSave env = Failed msg ∧ userWrite env = Committed) →
    let committed (event' : Event) (user' : User) :=
      match eventSave env with
      | Committed => set_events <[eventId := event']> st
      | Failed _ => set_users <[userId := user']> st
      end in
    (role user = MARKETER →
     ∃ exn,
       addMarketerToEvent env eventId userId st =
         (inl exn,
          committed (set_marketers (marketers event ++ [userId]) event)
            (mkUser (role user)
               (if decide (eventId ∈ eventParticipation user)
                then eventParticipation user
                else eventParticipation user ++ [eventId]))) ∧
       exn = HttpException ("Failed to add marketer to event: " +:+ msg)
               INTERNAL_SERVER_ERROR ∧
       kind_of exn = GenericFailure) ∧
    (∃ exn,
       removeMarketerFromEvent env eventId userId st =
         (inl exn,
          committed event
            (mkUser (role user) (filter (λ e, e ≠ eventId) (eventParticipation user)))) ∧
       exn = HttpException ("Failed to remove marketer from event: " +:+ msg)
               INTERNAL_SERVER_ERROR ∧
       kind_of exn = GenericFailure).
Proof.
  intros env st eventId userId event user msg Hev Hus Hone committed. split.
  - intros Hrole.
    destruct (join_outcome_writes env st eventId userId event user Hev Hus Hrole)
      as [Huser Hevent].
    eexists. split_and!; [|done..].
    subst committed. simpl.
    destruct Hone as [[Hsave Hwrite]|[Hsave Hwrite]]; rewrite Hsave; auto.
  - destruct (leave_outcome_writes env st eventId userId event user Hev Hus)
      as [Huser Hevent].
    eexists. split_and!; [|done..].
    subst committed. simpl.
    destruct Hone as [[Hsave Hwrite]|[Hsave Hwrite]]; rewrite Hsave; auto.
Qed.

(** On [demo_store], with the user-side write failing, the marketer [m1]
    joins and the marketer [m0] leaves: both calls throw the generic error;
    the join leaves [m1] in the [marketers] of the event, the leave leaves
    the event as it was. With the event-side write failing, the join of [m1]
    throws the same error and leaves the user-side write in the store. *)
Lemma partial_write_is_generic_failure_witness :
  (∃ exn,
     addMarketerToEvent env_user_write_fails "e1" "m1" demo_store =
       (inl exn, set_events <["e1" := mkEvent ["m0"; "m1"] [demo_rejected]]> demo_store) ∧
     kind_of exn = GenericFailure) ∧
  (∃ exn,
     removeMarketerFromEvent env_user_write_fails "e1" "m0" demo_store =
       (inl exn, set_events <["e1" := mkEvent ["m0"] [demo_rejected]]> demo_store) ∧
     kind_of exn = GenericFailure) ∧
  (∃ exn,
     addMarketerToEvent env_event_save_fails "e1" "m1" demo_store =
       (inl exn, set_users <["m1" := mkUser MARKETER ["e1"]]> demo_store) ∧
     kind_of exn = GenericFailure).
Proof.
  split_and!.
  - destruct (partial_write_is_generic_failure env_user_write_fails demo_store "e1" "m1"
                demo_event (mkUser MARKETER []) "connection reset")
      as [Hjoin _]; [reflexivity | reflexivity | left; split; reflexivity |].
    destruct Hjoin as (exn & Hrun & _ & Hkind); [reflexivity|].
    exists exn. split; [exact Hrun | exact Hkind].
  - destruct (partial_write_is_generic_failure env_user_write_fails demo_store "e1" "m0"
                demo_event (mkUser MARKETER ["e1"]) "connection reset")
      as [_ Hleave]; [reflexivity | reflexivity | left; split; reflexivity |].
    destruct Hleave as (exn & Hrun & _ & Hkind).
    exists exn. split; [exact Hrun | exact Hkind].
  - destruct (partial_write_is_generic_failure env_event_save_fails demo_store "e1" "m1"
                demo_event (mkUser MARKETER []) "connection reset")
      as [Hjoin _]; [reflexivity | reflexivity | right; split; reflexivity |].
    destruct Hjoin as (exn & Hrun & _ & Hkind); [reflexivity|].
    exists exn. split; [exact Hrun | exact Hkind].
Defined.

(** Counterexample to C2 as the specification states it: on [demo_store] the
    marketer [m1] joins the event [e1] while the user-side write fails. The
    event-side write is committed, the aggregates are left apart, and the
    error is the generic one, the same the call throws when both writes
    fail. *)
Lemma join_partial_failure_unreported :
  let out := addMarketerToEvent env_user_write_fails "e1" "m1" demo_store in
  consistent "e1" "m1" demo_store ∧
  out.1 = inl (HttpException "Failed to add marketer to event: connection reset"
                 INTERNAL_SERVER_ERROR) ∧
  inMarketers "e1" "m1" out.2 ∧ ¬ inParticipation "e1" "m1" out.2 ∧
  ¬ divergenceHandled "e1" "m1" out ∧
  out.1 = (addMarketerToEvent env_both_writes_fail "e1" "m1" demo_store).1.
Proof.
  assert (inMarketers "e1" "m1"
            (addMarketerToEvent env_user_write_fails "e1" "m1" demo_store).2) as Hin
    by decide_true.
  assert (¬ inParticipation "e1" "m1"
            (addMarketerToEvent env_user_write_fails "e1" "m1" demo_store).2) as Hout
    by decide_false.
  split_and!.
  - split; intros H; exfalso; revert H; decide_false.
  - vm_compute. reflexivity.
  - exact Hin.
  - exact Hout.
  - intros [Hcons|Hrep].
    + apply Hout, Hcons, Hin.
    + vm_compute in Hrep. discriminate Hrep.
  - vm_compute. reflexivity.
Qed.

(** ** C9: the error a [leave] of a missing event reports *)

(** [findOne] throws [NotFoundException] for a missing event, and the [catch]
    of [removeMarketerFromEvent] turns it into a 500. *)
Lemma leave_missing_event env st eventId userId :
  events st !! eventId = None →
  removeMarketerFromEvent env eventId userId st =
    (inl (HttpException "Failed to remove marketer from event: Event not found"
            INTERNAL_SERVER_ERROR), st).
Proof. intros Hev. unfold_service. by rewrite Hev. Qed.

(** [checkInAttendee], whose [catch] rethrows the exceptions of the service,
    reports the missing event as it is. *)
Lemma checkIn_missing_event env st eventId phone conciergeId :
  events st !! eventId = None →
  checkInAttendee env eventId phone conciergeId st =
    (inl (NotFoundException "Event not found"), st).
Proof. intros Hev. unfold_service. by rewrite Hev. Qed.

(** C9. The code at the failing input: [leave] of the event [e9], which
    [demo_store] does not have, throws an [HttpException] with status
    [INTERNAL_SERVER_ERROR], of the generic kind and not [NotFound], while
    [findOne] and [checkIn] report the same missing event as [NotFound]. *)
Theorem leave_missing_event_is_generic :
  events demo_store !! "e9" = None ∧
  removeMarketerFromEvent (env_ok 5 "r9") "e9" "m0" demo_store =
    (inl (HttpException "Failed to remove marketer from event: Event not found"
            INTERNAL_SERVER_ERROR), demo_store) ∧
  kind_of (HttpException "Failed to remove marketer from event: Event not found"
             INTERNAL_SERVER_ERROR) = GenericFailure ∧
  (∃ exn, findOne "e9" demo_store = (inl exn, demo_store) ∧ kind_of exn = NotFound) ∧
  (∃ exn, checkInAttendee (env_ok 5 "r9") "e9" "+15551234567" "c1" demo_store
            = (inl exn, demo_store) ∧ kind_of exn = NotFound).
Proof.
  assert (events demo_store !! "e9" = None) as Hev by reflexivity.
  split_and!.
  - exact Hev.
  - by apply leave_missing_event.
  - reflexivity.
  - exists (NotFoundException "Event not found").
    split; [|reflexivity]. unfold findOne. by rewrite Hev.
  - exists (NotFoundException "Event not found").
    split; [by apply checkIn_missing_event|reflexivity].
Qed.

(** ** C8: the status [myStatus] returns *)

Section find_head.
Context {A : Type} (P : A → Prop) `{!∀ x, Decision (P x)}.

(** The element [find] returns is the head of the matching elements. *)
Lemma list_find_head_filter (l : list A) :
  snd <$> list_find P l = head (filter P l).
Proof.
  induction l as [|x l IH]; [done|].
  rewrite filter_cons. cbn. destruct (decide (P x)); [done|].
  rewrite <- IH. by destruct (list_find P l) as [[??]|].
Qed.
End find_head.

(** Finding an event by its id among the documents a query selected. *)
Lemma list_find_key_map_to_list (m : gmap string Event)
    (Q : string * Event → Prop) `{!∀ p, Decision (Q p)} (k : string) :
  snd <$> list_find (λ p : string * Event, p.1 = k) (filter Q (map_to_list m))
  = match m !! k with
    | Some v => if decide (Q (k, v)) then Some (k, v) else None
    | None => None
    end.
Proof.
  destruct (list_find _ _) as [[i p]|] eqn:Hfind; simpl.
  - apply list_find_Some in Hfind as (Hi & Hk & _).
    apply list_elem_of_lookup_2, list_elem_of_filter in Hi as [HQ Hin].
    destruct p as [k' v]. simpl in Hk. subst k'.
    apply elem_of_map_to_list in Hin. rewrite Hin.
    by rewrite decide_True.
  - apply list_find_None in Hfind. rewrite Forall_forall in Hfind.
    destruct (m !! k) as [v|] eqn:Hk; [|done].
    destruct (decide (Q (k, v))) as [HQ|]; [|done].
    destruct (Hfind (k, v)); [|done].
    apply list_elem_of_filter. split; [done|]. by apply elem_of_map_to_list.
Qed.

(** C8, as the code has it. [myStatus(eventId, userId)] returns the status of
    the earliest request of the user on the event, the first in request
    order, and "none" when the event does not exist or has no request of the
    user; it changes nothing. *)
Theorem myStatus_is_earliest_request :
  ∀ st eventId userId,
    myStatus eventId userId st = (inr (earliestStatus eventId userId st), st).
Proof.
  intros st eventId userId.
  unfold myStatus, getConciergeAssignments, await, resolve, earliestStatus. simpl.
  f_equal. f_equal.
  rewrite list_find_fmap.
  pose proof (list_find_key_map_to_list (events st) (hasRequestOf userId) eventId) as Hkey.
  unfold compose. simpl.
  destruct (list_find _ (filter _ _)) as [[i p]|]; simpl in *.
  - destruct (events st !! eventId) as [event|]; [|done].
    destruct (decide (hasRequestOf userId (eventId, event))); [|done].
    simplify_eq. simpl. unfold requestsOf.
    rewrite <- list_find_head_filter.
    by destruct (list_find _ (conciergeRequests event)) as [[??]|].
  - destruct (events st !! eventId) as [event|]; [|done].
    destruct (decide (hasRequestOf userId (eventId, event))) as [|Hno]; [done|].
    unfold requestsOf. rewrite filter_nil_not_Exists; done.
Qed.

(** Counterexample to C8 as the specification states it: on
    [demo_store_pending], which the concierge [c1] reaches by a request, its
    rejection and a new request, the most recent request of [c1] is [Pending]
    and [myStatus] answers [Rejected]. *)
Lemma myStatus_not_most_recent :
  run [(env_ok 10 "r1", request "e1" "c1");
       (env_ok 20 "r9", review "e1" "r1" false "admin");
       (env_ok 30 "r2", request "e1" "c1")] demo_store_fresh = demo_store_pending ∧
  mostRecentStatus "e1" "c1" demo_store_pending = Some Pending ∧
  myStatus "e1" "c1" demo_store_pending = (inr (Some Rejected), demo_store_pending) ∧
  myStatus "e1" "c1" demo_store_pending
    ≠ (inr (mostRecentStatus "e1" "c1" demo_store_pending), demo_store_pending).
Proof.
  split_and!.
  - vm_compute. reflexivity.
  - vm_compute. reflexivity.
  - vm_compute. reflexivity.
  - vm_compute. intros H. discriminate H.
Qed.

(** * Further properties of the service *)

(** ** Leaving an event *)

Lemma filter_ne_not_elem_of (x : Id) (l : list Id) : x ∉ l → filter (λ y, y ≠ x) l = l.
Proof.
  intros Hx. induction l as [|y l IH]; [done|].
  apply not_elem_of_cons in Hx as [Hne Hx].
  rewrite filter_cons_True by done. by rewrite IH.
Qed.

Lemma not_elem_of_filter_ne (x : Id) (l : list Id) : x ∉ filter (λ y, y ≠ x) l.
Proof. intros [Hne _]%list_elem_of_filter. done. Qed.

(** A [leave] whose two writes are committed: the event is saved as it was,
    the filter having kept every populated document. *)
Lemma leave_committed env st eventId userId event user :
  events st !! eventId = Some event →
  users st !! userId = Some user →
  eventSave env = Committed →
  userWrite env = Committed →
  removeMarketerFromEvent env eventId userId st =
    (inr event,
     mkStore (events st)
       (<[userId := mkUser (role user)
                      (filter (λ e, e ≠ eventId) (eventParticipation user))]> (users st))
       (attendees st)).
Proof.
  intros Hev Hus Hsave Hwrite. unfold_service.
  rewrite Hev, Hsave, Hwrite. simpl. rewrite Hus. simpl.
  rewrite populated_all_kept, depopulate_populate.
  unfold set_marketers. rewrite event_eta, lookup_insert_eq.
  unfold set_users, set_events. simpl. by rewrite insert_id.
Qed.

(** What a successful [leave] has found and done. *)
Lemma leave_success_inv env st eventId userId view st1 :
  removeMarketerFromEvent env eventId userId st = (inr view, st1) →
  ∃ event user,
    events st !! eventId = Some event ∧ users st !! userId = Some user ∧
    eventSave env = Committed ∧ userWrite env = Committed.
Proof.
  unfold_service. intros H.
  destruct (events st !! eventId) as [event|] eqn:Hev; [|discriminate H].
  destruct (eventSave env) eqn:Hs, (userWrite env) eqn:Hw; simpl in H;
    destruct (users st !! userId) as [user|] eqn:Hus; simpl in H;
    try (destruct (secondRejectsFirst env)); try discriminate H.
  all: by exists event, user.
Qed.

(** X1. A [leave] whose two writes are committed, on an existing event and
    user of any role, removes the event from the user's [eventParticipation]
    and leaves [event.marketers] as it was: the filter compares the rendering
    of populated documents with a hexadecimal string and keeps every
    element. The view returned is the event as stored before the call, so a
    member who leaves is still listed as a marketer and the two aggregates no
    longer agree. *)
Theorem leave_removes_user_side_only :
  ∀ env st eventId userId event user,
    events st !! eventId = Some event →
    users st !! userId = Some user →
    eventSave env = Committed →
    userWrite env = Committed →
    ∃ st1,
      removeMarketerFromEvent env eventId userId st = (inr event, st1) ∧
      events st1 = events st ∧
      attendees st1 = attendees st ∧
      (∃ user1, users st1 !! userId = Some user1 ∧
                role user1 = role user ∧
                (eventId ∉ eventParticipation user1) ∧
                (∀ e, e ≠ eventId →
                      e ∈ eventParticipation user1 ↔ e ∈ eventParticipation user)) ∧
      (userId ∈ marketers event →
       inMarketers eventId userId st1 ∧ ¬ inParticipation eventId userId st1 ∧
       ¬ consistent eventId userId st1).
Proof.
  intros env st eventId userId event user Hev Hus Hsave Hwrite.
  eexists. split; [by apply leave_committed|]. simpl.
  split_and!; [done|done| |].
  - eexists. rewrite lookup_insert_eq. split_and!; [done|done|apply not_elem_of_filter_ne|].
    intros e He. simpl. rewrite list_elem_of_filter. tauto.
  - intros Hin.
    assert (inMarketers eventId userId
              (mkStore (events st)
                 (<[userId := mkUser (role user)
                                (filter (λ e, e ≠ eventId) (eventParticipation user))]>
                    (users st))
                 (attendees st))) as Hm
      by (unfold inMarketers; simpl; by rewrite Hev).
    assert (¬ inParticipation eventId userId
              (mkStore (events st)
                 (<[userId := mkUser (role user)
                                (filter (λ e, e ≠ eventId) (eventParticipation user))]>
                    (users st))
                 (attendees st))) as Hp
      by (unfold inParticipation; simpl; rewrite lookup_insert_eq; simpl;
          apply not_elem_of_filter_ne).
    split_and!; [done|done|]. intros Hcons. by apply Hp, Hcons.
Qed.

(** The marketer [m0] of [demo_store] leaves [e1] and is still among its
    [marketers]. *)
Lemma leave_removes_user_side_only_witness :
  ∃ st1,
    removeMarketerFromEvent (env_ok 5 "r9") "e1" "m0" demo_store = (inr demo_event, st1) ∧
    events st1 = events demo_store ∧
    inMarketers "e1" "m0" st1 ∧ ¬ inParticipation "e1" "m0" st1.
Proof.
  destruct (leave_removes_user_side_only (env_ok 5 "r9") demo_store "e1" "m0" demo_event
              (mkUser MARKETER ["e1"]))
    as (st1 & Hrun & Hev & _ & _ & Hdiverge);
    [reflexivity | reflexivity | reflexivity | reflexivity |].
  destruct Hdiverge as (Hm & Hp & _); [decide_true|].
  exists st1. split_and!; assumption.
Defined.

(** X2. Whatever makes a [leave] fail, the caller gets an [HttpException]
    with status [INTERNAL_SERVER_ERROR] whose message starts with "Failed to
    remove marketer from event: ": [leave] never reports [NotFound]. *)
Theorem leave_failures_are_generic :
  ∀ env st eventId userId exn st1,
    removeMarketerFromEvent env eventId userId st = (inl exn, st1) →
    ∃ msg, exn = HttpException ("Failed to remove marketer from event: " +:+ msg)
                   INTERNAL_SERVER_ERROR ∧
           kind_of exn = GenericFailure.
Proof.
  intros env st eventId userId exn st1. unfold removeMarketerFromEvent, try_catch, throw.
  destruct (await _ _ st) as [[error|view] st2]; intros H; simplify_eq.
  by exists (message error).
Qed.

(** A [leave] by a user that does not exist, on [demo_store]. *)
Lemma leave_failures_are_generic_witness :
  ∃ exn st1,
    removeMarketerFromEvent (env_ok 5 "r9") "e1" "nobody" demo_store = (inl exn, st1) ∧
    kind_of exn = GenericFailure.
Proof.
  pose (out := removeMarketerFromEvent (env_ok 5 "r9") "e1" "nobody" demo_store).
  destruct (leave_failures_are_generic (env_ok 5 "r9") demo_store "e1" "nobody"
              (HttpException "Failed to remove marketer from event: User not found"
                 INTERNAL_SERVER_ERROR) out.2)
    as (msg & _ & Hkind).
  - vm_compute. reflexivity.
  - eexists _, out.2. split; [|exact Hkind]. vm_compute. reflexivity.
Defined.

(** X3. A [join] followed by a [leave] does not undo the [join] on the
    event side. For a marketer who is on neither side, all writes committed,
    the [leave] returns the event with the marketer still pushed, and leaves
    a store in which the event lists the marketer while the user's
    [eventParticipation] is back to what it was. *)
Theorem join_then_leave_keeps_marketer :
  ∀ env env2 st eventId userId event user,
    events st !! eventId = Some event →
    users st !! userId = Some user →
    role user = MARKETER →
    userId ∉ marketers event →
    eventId ∉ eventParticipation user →
    eventSave env = Committed → userWrite env = Committed →
    eventSave env2 = Committed → userWrite env2 = Committed →
    let event1 := mkEvent (marketers event ++ [userId]) (conciergeRequests event) in
    removeMarketerFromEvent env2 eventId userId
      (addMarketerToEvent env eventId userId st).2
    = (inr event1,
       mkStore (<[eventId := event1]> (events st)) (users st) (attendees st)).
Proof.
  intros env env2 st eventId userId event user Hev Hus Hrole Hm Hp Hs1 Hw1 Hs2 Hw2 event1.
  rewrite (join_committed env st eventId userId event user) by done. simpl.
  rewrite decide_False by done.
  erewrite leave_committed; [|simpl; apply lookup_insert_eq..|done|done].
  simpl. rewrite insert_insert_eq.
  rewrite filter_app, (filter_ne_not_elem_of eventId) by done.
  rewrite filter_cons_False, filter_nil by (intros ?; done).
  rewrite app_nil_r, user_eta. by rewrite (insert_id (users st)) by done.
Qed.

(** The marketer [m1] of [demo_store] joins [e1] and leaves it again. *)
Lemma join_then_leave_keeps_marketer_witness :
  removeMarketerFromEvent (env_ok 6 "r9") "e1" "m1"
    (addMarketerToEvent (env_ok 5 "r9") "e1" "m1" demo_store).2
  = (inr (mkEvent ["m0"; "m1"] [demo_rejected]),
     mkStore (<["e1" := mkEvent ["m0"; "m1"] [demo_rejected]]> (events demo_store))
       (users demo_store) (attendees demo_store)).
Proof.
  apply (join_then_leave_keeps_marketer _ _ _ _ _ demo_event (mkUser MARKETER []));
    try reflexivity; decide_false.
Defined.

(** X4. A [leave] after a successful [leave], its writes committed again,
    returns the same view and leaves the store as the first one left it. *)
Theorem leave_twice_is_leave_once :
  ∀ env env2 st eventId userId view st1,
    removeMarketerFromEvent env eventId userId st = (inr view, st1) →
    eventSave env2 = Committed → userWrite env2 = Committed →
    removeMarketerFromEvent env2 eventId userId st1 = (inr view, st1).
Proof.
  intros env env2 st eventId userId view st1 Hrun Hs2 Hw2.
  destruct (leave_success_inv _ _ _ _ _ _ Hrun) as (event & user & Hev & Hus & Hs & Hw).
  rewrite (leave_committed env st eventId userId event user) in Hrun by done.
  simplify_eq.
  erewrite leave_committed; [|done|simpl; apply lookup_insert_eq|done|done].
  simpl. rewrite insert_insert_eq.
  by rewrite (filter_ne_not_elem_of eventId (filter _ (eventParticipation user)))
    by apply not_elem_of_filter_ne.
Qed.

(** The marketer [m0] of [demo_store] leaves [e1] twice. *)
Lemma leave_twice_is_leave_once_witness :
  let out := removeMarketerFromEvent (env_ok 5 "r9") "e1" "m0" demo_store in
  removeMarketerFromEvent (env_ok 6 "r9") "e1" "m0" out.2
    = (inr (mkEvent ["m0"] [demo_rejected]), out.2).
Proof.
  intros out.
  apply (leave_twice_is_leave_once (env_ok 5 "r9") _ demo_store); [|reflexivity..].
  vm_compute. reflexivity.
Defined.

(** ** What a call leaves alone *)

(** X5. A call writes to its own aggregate only. A [join] or [leave] touches
    the [marketers] of its event and the participation of its user, and
    neither the concierge requests, nor the user's role, nor another event or
    user, nor an attendee; a [request], [review] or [cancel] touches the
    concierge requests of its event and nothing else; a [checkIn] touches
    attendees only. *)
Theorem calls_keep_to_their_aggregate :
  ∀ env op st, frame op st (step env op st).2.
Proof.
  intros env op st. destruct op; unfold frame; unfold_service; simpl.
  all: repeat (case_match; simplify_eq/=; try done).
  all: split_and!; try done.
  all: try (intros ? ?; by rewrite lookup_insert_ne).
  all: rewrite ?lookup_insert_eq; simpl.
  all: by repeat match goal with
              | H : ?m !! ?k = _ |- context [?m !! ?k] => rewrite H
              end.
Qed.

(** X6. A failed [request], [review], [cancel] or [checkIn] has written
    nothing, and so has a [join] that failed with anything but a 500: the
    store is as it was before the call. *)
Theorem failed_calls_write_nothing :
  ∀ env op st exn st1,
    step env op st = (inl exn, st1) →
    failsBeforeWriting op exn →
    st1 = st.
Proof.
  intros env op st exn st1. destruct op; unfold failsBeforeWriting; [|done|..].
  all: unfold_service; simpl; intros H Hexn.
  all: repeat (case_match; simplify_eq/=; try done).
  all: by match goal with H : <[_ := _]> _ !! _ = None |- _ =>
            rewrite lookup_insert_eq in H end.
Qed.

(** On [demo_store] the concierge [c1] cancels without a pending request,
    and joins without being a marketer. *)
Lemma failed_calls_write_nothing_witness :
  (step (env_ok 5 "r9") (cancel "e1" "c1") demo_store).2 = demo_store ∧
  (step (env_ok 5 "r9") (join "e1" "c1") demo_store).2 = demo_store.
Proof.
  split.
  - apply (failed_calls_write_nothing (env_ok 5 "r9") (cancel "e1" "c1") demo_store
             (NotFoundException "No pending request found")); [|exact I].
    vm_compute. reflexivity.
  - apply (failed_calls_write_nothing (env_ok 5 "r9") (join "e1" "c1") demo_store
             (UnauthorizedException "Only marketers can be added to events")).
    + vm_compute. reflexivity.
    + simpl. discriminate.
Defined.

(** ** Check-in and the database *)

(** X7. When the database rejects the update of a check-in that passed all
    checks, the caller gets an [HttpException] with status
    [INTERNAL_SERVER_ERROR] that carries the message of the database, and the
    attendee is still not checked in: the store is unchanged. *)
Theorem checkIn_rejected_update :
  ∀ env st eventId phone concierge event a rest msg,
    events st !! eventId = Some event →
    Exists (isApprovedFor concierge) (conciergeRequests event) →
    filter (matchesQuery phone eventId) (attendees st) = a :: rest →
    checkedIn a = false →
    attendeeUpdate env = Failed msg →
    checkInAttendee env eventId phone concierge st =
      (inl (HttpException ("Failed to check in attendee: " +:+ msg) INTERNAL_SERVER_ERROR),
       st).
Proof.
  intros env st eventId phone concierge event a rest msg Hev Hok Hfound Hin Hup.
  unfold_service. rewrite Hev.
  rewrite bool_decide_eq_true_2 by done. simpl.
  by rewrite Hfound, Hin, Hup.
Qed.

Lemma checkIn_rejected_update_witness :
  checkInAttendee (mkEnv 70 "r9" Committed Committed (Failed "timeout") false)
    "e1" "+15551234567" "c1" demo_store_approved =
    (inl (HttpException "Failed to check in attendee: timeout" INTERNAL_SERVER_ERROR),
     demo_store_approved).
Proof.
  apply (checkIn_rejected_update _ _ _ _ _ demo_event_approved
           (mkAttendee "a1" "e1" "+15551234567" false None None)
           [mkAttendee "a2" "e1" "+15551234567" false None None]);
    [reflexivity | decide_true | vm_compute; reflexivity | reflexivity | reflexivity].
Defined.

(** ** Requests, cancellations and reviews together *)

(** X8. A [request] followed by the same user's [cancel], both saves
    committed, gives back the store as it was. *)
Theorem request_then_cancel_restores :
  ∀ env env2 st eventId userId event,
    events st !! eventId = Some event →
    ¬ Exists (isPendingFor userId) (conciergeRequests event) →
    eventSave env = Committed →
    eventSave env2 = Committed →
    cancelConciergeRequest env2 eventId userId
      (requestConcierge env eventId userId st).2 = (inr "Request cancelled", st).
Proof.
  intros env env2 st eventId userId event Hev Hnone Hs1 Hs2.
  unfold_service. rewrite Hev, Hs1.
  rewrite bool_decide_eq_false_2 by done. simpl.
  rewrite lookup_insert_eq. simpl.
  rewrite (list_find_middle _ _ _ _ Hnone) by done.
  rewrite Hs2, delete_middle, app_nil_r. unfold set_events, set_conciergeRequests. simpl.
  rewrite insert_insert_eq, event_eta, insert_id by done.
  by rewrite store_eta.
Qed.

Lemma request_then_cancel_restores_witness :
  cancelConciergeRequest (env_ok 40 "r9") "e1" "c1"
    (requestConcierge (env_ok 30 "r2") "e1" "c1" demo_store).2
  = (inr "Request cancelled", demo_store).
Proof.
  apply (request_then_cancel_restores _ _ _ _ _ demo_event);
    [reflexivity | decide_false | reflexivity | reflexivity].
Defined.

Section find_split.
Context {A : Type} (P : A → Prop) `{!∀ x, Decision (P x)}.

(** The list around the element [find] returns. *)
Lemma list_find_split (l : list A) i x :
  list_find P l = Some (i, x) →
  l = take i l ++ x :: drop (S i) l ∧ ¬ Exists P (take i l) ∧ P x.
Proof.
  intros (Hi & Hx & Hleast)%list_find_Some. split_and!; [|..|done].
  - by rewrite take_drop_middle.
  - intros (y & Hy & HPy)%Exists_exists.
    apply list_elem_of_lookup in Hy as (j & Hj).
    apply lookup_take_Some in Hj as [Hj Hlt]. by eapply Hleast.
Qed.
End find_split.

(** X9. In a store where every (event, user) pair has at most one [Pending]
    request, a successful [cancel] leaves the user without a [Pending]
    request on the event, so that the user's next [request] is accepted. *)
Theorem cancel_clears_pending :
  ∀ env env2 st eventId userId msg st1,
    atMostOnePending st →
    cancelConciergeRequest env eventId userId st = (inr msg, st1) →
    eventSave env2 = Committed →
    (∃ event1, events st1 !! eventId = Some event1 ∧ pendingFor userId event1 = []) ∧
    (requestConcierge env2 eventId userId st1).1 = inr "Request submitted for admin approval".
Proof.
  intros env env2 st eventId userId msg st1 Hinv Hrun Hs2.
  unfold cancelConciergeRequest, await, findOne, save, resolve, throw in Hrun.
  destruct (events st !! eventId) as [event|] eqn:Hev; [|discriminate Hrun].
  destruct (list_find _ _) as [[i r]|] eqn:Hfind; [|discriminate Hrun].
  destruct (eventSave env); [|discriminate Hrun]. simpl in Hrun. simplify_eq.
  apply list_find_split in Hfind as (Hsplit & Hbefore & Hr).
  assert (filter (isPendingFor userId) (delete i (conciergeRequests event)) = []) as Hnil.
  { specialize (Hinv eventId event userId Hev). unfold pendingFor in Hinv.
    rewrite delete_take_drop, filter_app.
    rewrite Hsplit, filter_app, filter_cons_True in Hinv by done.
    rewrite (filter_nil_not_Exists _ _ Hbefore) in *. simpl in *.
    destruct (filter _ (drop (S i) _)); [done|simpl in Hinv; lia]. }
  split.
  - eexists. simpl. rewrite lookup_insert_eq. split; [done|]. exact Hnil.
  - unfold_service. simpl. rewrite lookup_insert_eq. simpl.
    rewrite bool_decide_eq_false_2, Hs2; [done|].
    intros (y & Hy & HPy)%Exists_exists.
    assert (y ∈ filter (isPendingFor userId) (delete i (conciergeRequests event))) as Hin
      by (by apply list_elem_of_filter).
    rewrite Hnil in Hin. by apply elem_of_nil in Hin.
Qed.

(** On [demo_store_pending] the concierge [c1] cancels and requests again. *)
Lemma cancel_clears_pending_witness :
  let st1 := (cancelConciergeRequest (env_ok 40 "r9") "e1" "c1" demo_store_pending).2 in
  (∃ event1, events st1 !! "e1" = Some event1 ∧ pendingFor "c1" event1 = []) ∧
  (requestConcierge (env_ok 50 "r3") "e1" "c1" st1).1
    = inr "Request submitted for admin approval".
Proof.
  intros st1.
  apply (cancel_clears_pending (env_ok 40 "r9") (env_ok 50 "r3") demo_store_pending
           "e1" "c1" "Request cancelled" st1).
  - intros eventId e userId He. unfold demo_store_pending in He. simpl in He.
    apply lookup_singleton_Some in He as [_ <-].
    unfold pendingFor. simpl. rewrite !filter_cons, filter_nil.
    destruct (decide (isPendingFor userId demo_rejected)) as [[_ ?]|_]; [done|].
    destruct (decide (isPendingFor userId demo_pending)); simpl; lia.
  - vm_compute. reflexivity.
  - reflexivity.
Defined.

Lemma requests_step_reviewed_kept l l' r :
  requests_step l l' → r ∈ l → req_status r ≠ Pending → r ∈ l'.
Proof.
  intros Hstep Hr Hterminal.
  destruct Hstep as [l|l r0 Hr0 Hnone|l i r0 r' Hi Hr0 Hr'|l i r0 Hi Hr0].
  - done.
  - apply elem_of_app. by left.
  - apply list_elem_of_lookup in Hr as (j & Hj).
    apply list_elem_of_lookup. exists j.
    rewrite list_lookup_insert_ne; [done|]. intros ->. congruence.
  - apply list_elem_of_lookup in Hr as (j & Hj).
    assert (j ≠ i) by (intros ->; congruence).
    apply list_elem_of_lookup.
    destruct (decide (j < i)).
    + exists j. by rewrite list_lookup_delete_lt.
    + exists (pred j). rewrite list_lookup_delete_ge by lia.
      by replace (S (pred j)) with j by lia.
Qed.

(** X10. A reviewed request is final: whatever calls of the engine follow, an
    [Approved] or [Rejected] request stays among the requests of its event,
    with its status, its dates and all its fields. *)
Theorem reviewed_requests_are_final :
  ∀ calls st eventId event r,
    events st !! eventId = Some event →
    r ∈ conciergeRequests event →
    req_status r ≠ Pending →
    ∃ event1, events (run calls st) !! eventId = Some event1 ∧
              r ∈ conciergeRequests event1.
Proof.
  induction calls as [|[env op] calls IH]; intros st eventId event r Hev Hr Hterminal; simpl.
  - eauto.
  - destruct (events (step env op st).2 !! eventId) as [event1|] eqn:Hev1.
    + eapply IH; [done| |done].
      apply step_requests in Hev1 as (e & He & Hstep).
      eapply requests_step_reviewed_kept; [done| |done]. congruence.
    + apply step_events_kept in Hev1. congruence.
Qed.

(** The rejected request of [demo_store] outlives a new request, its
    approval, and a cancellation. *)
Lemma reviewed_requests_are_final_witness :
  ∃ event1,
    events (run [(env_ok 30 "r2", request "e1" "c1");
                 (env_ok 40 "r9", review "e1" "r2" true "admin");
                 (env_ok 50 "r9", cancel "e1" "c1")] demo_store) !! "e1" = Some event1 ∧
    demo_rejected ∈ conciergeRequests event1.
Proof.
  apply (reviewed_requests_are_final _ demo_store "e1" demo_event demo_rejected);
    [reflexivity | decide_true | discriminate].
Defined.

(** X11. A [request] and its approval make the concierge fit for check-in.
    When the user has no [Pending] request on the event and the id given to
    the new request is not yet in use there, a [request] followed by the
    [review] that approves it leaves the event with the earlier requests
    followed by the new one, [Approved], and a [checkIn] by that user of an
    attendee who is not checked in succeeds. *)
Theorem approved_request_allows_checkIn :
  ∀ env env2 env3 st eventId userId adminId event phone a rest,
    events st !! eventId = Some event →
    ¬ Exists (isPendingFor userId) (conciergeRequests event) →
    ¬ Exists (λ r, req_id r = newId env) (conciergeRequests event) →
    eventSave env = Committed →
    eventSave env2 = Committed →
    filter (matchesQuery phone eventId) (attendees st) = a :: rest →
    checkedIn a = false →
    attendeeUpdate env3 = Committed →
    uniqueAttendeeIds st →
    let st2 := run [(env, request eventId userId);
                    (env2, review eventId (newId env) true adminId)] st in
    events st2 !! eventId =
      Some (mkEvent (marketers event)
              (conciergeRequests event ++
                 [mkRequest (newId env) userId Approved (now env) (Some (now env2)) None])) ∧
    (checkInAttendee env3 eventId phone userId st2).1
      = inr "Attendee checked in successfully".
Proof.
  intros env env2 env3 st eventId userId adminId event phone a rest
    Hev Hnone Hfresh Hs1 Hs2 Hfound Hin Hup Hnd st2.
  assert (st2 = mkStore
                  (<[eventId := mkEvent (marketers event)
                       (conciergeRequests event ++
                          [mkRequest (newId env) userId Approved (now env)
                             (Some (now env2)) None])]> (events st))
                  (users st) (attendees st)) as Hst2.
  { subst st2. simpl. unfold_service. simpl. rewrite Hev, Hs1.
    rewrite bool_decide_eq_false_2 by done. simpl.
    rewrite lookup_insert_eq. simpl.
    rewrite (list_find_middle _ _ _ _ Hfresh) by done. simpl.
    rewrite Hs2. simpl. unfold set_events, set_conciergeRequests. simpl.
    rewrite insert_insert_eq.
    rewrite insert_app_r_alt by lia. by rewrite Nat.sub_diag. }
  rewrite Hst2. simpl. rewrite lookup_insert_eq. split; [done|].
  edestruct (checkIn_first env3
               (mkStore
                  (<[eventId := mkEvent (marketers event)
                       (conciergeRequests event ++
                          [mkRequest (newId env) userId Approved (now env)
                             (Some (now env2)) None])]> (events st))
                  (users st) (attendees st)) eventId phone userId)
    as (before & after & _ & _ & Hrun);
    [simpl; apply lookup_insert_eq | | exact Hfound | exact Hin | exact Hup | exact Hnd |].
  - simpl. apply Exists_app. right. by left.
  - by rewrite Hrun.
Qed.

(** On [demo_store] the concierge [c1] requests again, is approved, and
    checks an attendee in. *)
Lemma approved_request_allows_checkIn_witness :
  let st2 := run [(env_ok 30 "r2", request "e1" "c1");
                  (env_ok 50 "r9", review "e1" "r2" true "admin")] demo_store in
  events st2 !! "e1" = Some demo_event_approved ∧
  (checkInAttendee (env_ok 70 "r9") "e1" "+15551234567" "c1" st2).1
    = inr "Attendee checked in successfully".
Proof.
  apply (approved_request_allows_checkIn (env_ok 30 "r2") (env_ok 50 "r9") (env_ok 70 "r9")
           demo_store "e1" "c1" "admin" demo_event "+15551234567"
           (mkAttendee "a1" "e1" "+15551234567" false None None)
           [mkAttendee "a2" "e1" "+15551234567" false None None]);
    [reflexivity | decide_false | decide_false | reflexivity | reflexivity
    | vm_compute; reflexivity | reflexivity | reflexivity | decide_true].
Defined.

(** X12. A request that is still [Pending], or was [Rejected], does not make
    a concierge fit for check-in: a user without an [Approved] request on the
    event who requests, and whose request is then rejected or left pending,
    is refused by [checkIn] with the [UnauthorizedException]. *)
Theorem unapproved_request_refuses_checkIn :
  ∀ env env2 env3 st eventId userId adminId event phone (reviewed : bool),
    events st !! eventId = Some event →
    ¬ Exists (isApprovedFor userId) (conciergeRequests event) →
    let calls := (env, request eventId userId) ::
                 (if reviewed then [(env2, review eventId (newId env) false adminId)]
                  else []) in
    let st2 := run calls st in
    checkInAttendee env3 eventId phone userId st2 =
      (inl (UnauthorizedException "You are not an approved concierge for this event"), st2).
Proof.
  intros env env2 env3 st eventId userId adminId event phone reviewed Hev Hno calls st2.
  assert (∃ event2, events st2 !! eventId = Some event2 ∧
                    ¬ Exists (isApprovedFor userId) (conciergeRequests event2))
    as (event2 & Hev2 & Hno2); [|by eapply checkIn_unauthorized].
  assert (∀ env' op st' event',
            (∃ e u, op = request e u) ∨ (∃ e r by_, op = review e r false by_) →
            events st' !! eventId = Some event' →
            ¬ Exists (isApprovedFor userId) (conciergeRequests event') →
            ∃ event1, events (step env' op st').2 !! eventId = Some event1 ∧
                      ¬ Exists (isApprovedFor userId) (conciergeRequests event1)) as Hstep.
  { intros env' op st' event' Hop Hev' Hno'.
    destruct Hop as [(e & u & ->)|(e & r & by_ & ->)]; unfold_service; simpl.
    all: repeat (case_match; simplify_eq/=; eauto).
    all: rewrite lookup_insert.
    all: repeat case_decide; simplify_eq/=; eauto.
    all: eexists; (split; [done|]); simpl.
    - rewrite Exists_app, Exists_cons, Exists_nil. intros [?|[[_ ?]|?]]; done.
    - intros (y & Hy & HPy)%Exists_exists.
      apply list_elem_of_lookup in Hy as (j & Hj).
      match goal with H : list_find _ _ = Some (?i, _) |- _ =>
        destruct (decide (j = i)) as [->|Hne] end.
      + rewrite list_lookup_insert_eq in Hj
          by (match goal with H : list_find _ _ = Some _ |- _ =>
                apply list_find_Some in H as (H & _); by eapply lookup_lt_Some end).
        simplify_eq. by destruct HPy.
      + rewrite list_lookup_insert_ne in Hj by done.
        apply Hno'. apply Exists_exists. exists y. split; [|done].
        by eapply list_elem_of_lookup_2. }
  subst st2 calls.
  destruct (Hstep env (request eventId userId) st event) as (event1 & Hev1 & Hno1);
    [left; eauto | done | done |].
  destruct reviewed; cbn [run]; [|eauto].
  apply (Hstep env2 (review eventId (newId env) false adminId)
           (step env (request eventId userId) st).2 event1);
    [right; eauto | done | done].
Qed.

(** On [demo_store] the concierge [c1], with a [Rejected] request only,
    requests again and is rejected again. *)
Lemma unapproved_request_refuses_checkIn_witness :
  let st2 := run [(env_ok 30 "r2", request "e1" "c1");
                  (env_ok 50 "r9", review "e1" "r2" false "admin")] demo_store in
  checkInAttendee (env_ok 70 "r9") "e1" "+15551234567" "c1" st2 =
    (inl (UnauthorizedException "You are not an approved concierge for this event"), st2).
Proof.
  apply (unapproved_request_refuses_checkIn (env_ok 30 "r2") (env_ok 50 "r9")
           (env_ok 70 "r9") demo_store "e1" "c1" "admin" demo_event "+15551234567" true);
    [reflexivity | decide_false].
Defined.

(** ** The listings *)

(** X13. [getConciergeAssignments(userId)] changes nothing and returns one
    entry for each event that holds a request of the user, and no other: an
    entry carries the event as stored and the status of the first request of
    the user in it, and no event is listed twice. *)
Theorem assignments_one_per_event :
  ∀ st userId,
    ∃ l, getConciergeAssignments userId st = (inr l, st) ∧
         NoDup (asg_eventId <$> l) ∧
         ∀ a, a ∈ l ↔
              events st !! asg_eventId a = Some (asg_event a) ∧
              Exists (λ r, req_user r = userId) (conciergeRequests (asg_event a)) ∧
              myConciergeStatus a = req_status <$> head (requestsOf userId (asg_event a)).
Proof.
  intros st userId. eexists. split; [reflexivity|]. split.
  - rewrite <- list_fmap_compose.
    eapply sublist_NoDup; [apply (NoDup_fst_map_to_list (events st))|].
    apply fmap_sublist, sublist_filter.
  - intros a. rewrite list_elem_of_fmap. split.
    + intros ([k event] & -> & [Hq Hin]%list_elem_of_filter). simpl.
      apply elem_of_map_to_list in Hin. split_and!; [done..|].
      unfold requestsOf. rewrite <- list_find_head_filter.
      by destruct (list_find _ (conciergeRequests event)) as [[??]|].
    + intros (Hev & Hq & Hstatus). exists (asg_eventId a, asg_event a). split.
      * destruct a as [k event status]. simpl in *. subst status.
        unfold requestsOf. rewrite <- list_find_head_filter.
        by destruct (list_find _ (conciergeRequests event)) as [[??]|].
      * apply list_elem_of_filter. split; [done|]. by apply elem_of_map_to_list.
Qed.

(** A stored request with status [Pending] has its row in the listing. *)
Lemma pending_listing_rows eventName eventDate st eventId event req :
  events st !! eventId = Some event →
  req ∈ conciergeRequests event →
  req_status req = Pending →
  ∃ rows, getAllPendingConciergeRequests eventName eventDate st = (inr rows, st) ∧
          mkPendingRow eventId (eventName eventId) (eventDate eventId)
            (req_id req) (req_user req) (requestedAt req) (req_status req) ∈ rows.
Proof.
  intros Hev Hreq Hst. eexists. split; [reflexivity|].
  apply list_elem_of_bind. exists (eventId, event). split.
  - simpl. apply list_elem_of_fmap. exists req. split; [done|].
    by apply list_elem_of_filter.
  - apply list_elem_of_filter. split; [|by apply elem_of_map_to_list].
    apply Exists_exists. eauto.
Qed.

(** X14. [getAllPendingConciergeRequests] changes nothing and lists the
    [Pending] requests of all events, and nothing else: a row is listed
    exactly when it is built from a stored event and a request of that event
    whose status is [Pending]. *)
Theorem pending_listing_exact :
  ∀ eventName eventDate st,
    ∃ rows, getAllPendingConciergeRequests eventName eventDate st = (inr rows, st) ∧
            ∀ row, row ∈ rows ↔
                   ∃ eventId event req,
                     events st !! eventId = Some event ∧
                     req ∈ conciergeRequests event ∧
                     req_status req = Pending ∧
                     row = mkPendingRow eventId (eventName eventId) (eventDate eventId)
                             (req_id req) (req_user req) (requestedAt req) Pending.
Proof.
  intros eventName eventDate st. eexists. split; [reflexivity|].
  intros row. rewrite list_elem_of_bind. split.
  - intros ([k event] & Hrow & [_ Hin]%list_elem_of_filter). simpl in Hrow.
    apply list_elem_of_fmap in Hrow as (req & -> & [Hst Hreq]%list_elem_of_filter).
    apply elem_of_map_to_list in Hin. exists k, event, req. by rewrite Hst.
  - intros (k & event & req & Hev & Hreq & Hst & ->).
    exists (k, event). split.
    + simpl. apply list_elem_of_fmap. exists req. rewrite Hst. split; [done|].
      by apply list_elem_of_filter.
    + apply list_elem_of_filter. split; [|by apply elem_of_map_to_list].
      apply Exists_exists. eauto.
Qed.

(** A stored request with status [Approved] has its row in the listing. *)
Lemma approved_listing_rows eventName eventDate st eventId event req :
  events st !! eventId = Some event →
  req ∈ conciergeRequests event →
  req_status req = Approved →
  ∃ rows, getAllApprovedConcierges eventName eventDate st = (inr rows, st) ∧
          mkApprovedRow eventId (eventName eventId) (eventDate eventId)
            (req_user req) (reviewedAt req) ∈ rows.
Proof.
  intros Hev Hreq Hst. eexists. split; [reflexivity|].
  apply list_elem_of_bind. exists (eventId, event). split.
  - simpl. apply list_elem_of_fmap. exists req. split; [done|].
    by apply list_elem_of_filter.
  - apply list_elem_of_filter. split; [|by apply elem_of_map_to_list].
    apply Exists_exists. eauto.
Qed.

(** X15. [getAllApprovedConcierges] changes nothing and lists the [Approved]
    requests of all events, and nothing else, each with the user and the
    [reviewedAt] of the request. *)
Theorem approved_listing_exact :
  ∀ eventName eventDate st,
    ∃ rows, getAllApprovedConcierges eventName eventDate st = (inr rows, st) ∧
            ∀ row, row ∈ rows ↔
                   ∃ eventId event req,
                     events st !! eventId = Some event ∧
                     req ∈ conciergeRequests event ∧
                     req_status req = Approved ∧
                     row = mkApprovedRow eventId (eventName eventId) (eventDate eventId)
                             (req_user req) (reviewedAt req).
Proof.
  intros eventName eventDate st. eexists. split; [reflexivity|].
  intros row. rewrite list_elem_of_bind. split.
  - intros ([k event] & Hrow & [_ Hin]%list_elem_of_filter). simpl in Hrow.
    apply list_elem_of_fmap in Hrow as (req & -> & [Hst Hreq]%list_elem_of_filter).
    apply elem_of_map_to_list in Hin. by exists k, event, req.
  - intros (k & event & req & Hev & Hreq & Hst & ->).
    exists (k, event). split.
    + simpl. apply list_elem_of_fmap. exists req. split; [done|].
      by apply list_elem_of_filter.
    + apply list_elem_of_filter. split; [|by apply elem_of_map_to_list].
      apply Exists_exists. eauto.
Qed.

(** X16. A request moves through the listings: once accepted it is on the
    pending listing, and once approved, under an id not used before in the
    event, it is on the approved listing with [reviewedAt] set to the time of
    the review. *)
Theorem request_moves_through_listings :
  ∀ eventName eventDate env env2 st eventId userId adminId event,
    events st !! eventId = Some event →
    ¬ Exists (isPendingFor userId) (conciergeRequests event) →
    ¬ Exists (λ r, req_id r = newId env) (conciergeRequests event) →
    eventSave env = Committed →
    eventSave env2 = Committed →
    let st1 := run [(env, request eventId userId)] st in
    let st2 := run [(env2, review eventId (newId env) true adminId)] st1 in
    (∃ rows, getAllPendingConciergeRequests eventName eventDate st1 = (inr rows, st1) ∧
             mkPendingRow eventId (eventName eventId) (eventDate eventId)
               (newId env) userId (now env) Pending ∈ rows) ∧
    (∃ rows, getAllApprovedConcierges eventName eventDate st2 = (inr rows, st2) ∧
             mkApprovedRow eventId (eventName eventId) (eventDate eventId)
               userId (Some (now env2)) ∈ rows).
Proof.
  intros eventName eventDate env env2 st eventId userId adminId event
    Hev Hnone Hfresh Hs1 Hs2 st1 st2.
  assert (events st1 !! eventId =
            Some (mkEvent (marketers event)
                    (conciergeRequests event ++
                       [mkRequest (newId env) userId Pending (now env) None None])))
    as Hev1.
  { subst st1. simpl. unfold_service. rewrite Hev, Hs1.
    rewrite bool_decide_eq_false_2 by done. simpl. by rewrite lookup_insert_eq. }
  assert (events st2 !! eventId =
            Some (mkEvent (marketers event)
                    (conciergeRequests event ++
                       [mkRequest (newId env) userId Approved (now env)
                          (Some (now env2)) None])))
    as Hev2.
  { subst st2. cbn [run]. unfold step, reviewConciergeRequest, await, findOne, save, resolve.
    rewrite Hev1. simpl.
    rewrite (list_find_middle _ _ _ _ Hfresh) by done. simpl.
    rewrite Hs2. simpl. rewrite lookup_insert_eq.
    rewrite insert_app_r_alt by lia. by rewrite Nat.sub_diag. }
  split.
  - apply (pending_listing_rows eventName eventDate st1 eventId _
             (mkRequest (newId env) userId Pending (now env) None None) Hev1); [|done].
    simpl. apply elem_of_app. right. by left.
  - apply (approved_listing_rows eventName eventDate st2 eventId _
             (mkRequest (newId env) userId Approved (now env) (Some (now env2)) None)
             Hev2); [|done].
    simpl. apply elem_of_app. right. by left.
Qed.

(** On [demo_store] the concierge [c1] requests again and is approved. *)
Lemma request_moves_through_listings_witness :
  let name := λ _ : string, "Summer Tech Conference 2025" in
  let date := λ _ : string, "2025-07-15T09:00:00Z" in
  let st1 := run [(env_ok 30 "r2", request "e1" "c1")] demo_store in
  let st2 := run [(env_ok 50 "r9", review "e1" "r2" true "admin")] st1 in
  (∃ rows, getAllPendingConciergeRequests name date st1 = (inr rows, st1) ∧
           mkPendingRow "e1" "Summer Tech Conference 2025" "2025-07-15T09:00:00Z"
             "r2" "c1" 30%Z Pending ∈ rows) ∧
  (∃ rows, getAllApprovedConcierges name date st2 = (inr rows, st2) ∧
           mkApprovedRow "e1" "Summer Tech Conference 2025" "2025-07-15T09:00:00Z"
             "c1" (Some 50%Z) ∈ rows).
Proof.
  intros name date.
  apply (request_moves_through_listings name date (env_ok 30 "r2") (env_ok 50 "r9")
           demo_store "e1" "c1" "admin" demo_event);
    [reflexivity | decide_false | decide_false | reflexivity | reflexivity].
Defined.

(** ** Deleting an event *)

(** X17. [remove(id)] keeps the kind of its failure: a missing event is
    reported with status [NOT_FOUND], a delete the database rejects with
    status [INTERNAL_SERVER_ERROR], both under the message prefix "Failed to
    delete event: " and with the store unchanged; otherwise the event
    document is deleted and nothing else is. *)
Theorem remove_outcomes :
  (∀ o st id,
     events st !! id = None →
     ∃ exn, remove o id st = (inl exn, st) ∧
            exn = HttpException "Failed to delete event: Event not found" NOT_FOUND ∧
            kind_of exn = NotFound) ∧
  (∀ st id event msg,
     events st !! id = Some event →
     ∃ exn, remove (Failed msg) id st = (inl exn, st) ∧
            exn = HttpException ("Failed to delete event: " +:+ msg) INTERNAL_SERVER_ERROR ∧
            kind_of exn = GenericFailure) ∧
  (∀ st id event,
     events st !! id = Some event →
     remove Committed id st =
       (inr "Event deleted successfully",
        mkStore (delete id (events st)) (users st) (attendees st))).
Proof.
  split_and!.
  - intros o st id Hev. eexists. split_and!; [|done..].
    unfold remove. unfold_service. by rewrite Hev.
  - intros st id event msg Hev. eexists. split_and!; [|done..].
    unfold remove, findByIdAndDelete. unfold_service. by rewrite Hev.
  - intros st id event Hev.
    unfold remove, findByIdAndDelete. unfold_service. by rewrite Hev.
Qed.

Lemma remove_outcomes_witness :
  (∃ exn, remove Committed "e9" demo_store = (inl exn, demo_store) ∧
          kind_of exn = NotFound) ∧
  (∃ exn, remove (Failed "timeout") "e1" demo_store = (inl exn, demo_store) ∧
          kind_of exn = GenericFailure) ∧
  remove Committed "e1" demo_store =
    (inr "Event deleted successfully",
     mkStore (delete "e1" (events demo_store)) (users demo_store) (attendees demo_store)).
Proof.
  destruct remove_outcomes as (Hmissing & Hfailed & Hdone).
  split_and!.
  - destruct (Hmissing Committed demo_store "e9") as (exn & Hrun & _ & Hkind);
      [reflexivity|].
    exists exn. split; assumption.
  - destruct (Hfailed demo_store "e1" demo_event "timeout") as (exn & Hrun & _ & Hkind);
      [reflexivity|].
    exists exn. split; assumption.
  - apply (Hdone demo_store "e1" demo_event). reflexivity.
Defined.

Lemma remove_success_store st id event :
  events st !! id = Some event →
  users (remove Committed id st).2 = users st ∧
  attendees (remove Committed id st).2 = attendees st ∧
  events (remove Committed id st).2 !! id = None.
Proof.
  intros Hev. unfold remove, findByIdAndDelete. unfold_service. rewrite Hev. simpl.
  split_and!; [done..|]. apply lookup_delete_eq.
Qed.

(** X18. [remove] does not cascade. After an event is deleted, a marketer of
    it still has the event in [eventParticipation], the attendees of the
    event are still stored, and the entry can no longer be removed through
    the service: every later [leave] of the event fails with the generic
    error and leaves the store as it is. *)
Theorem remove_leaves_back_references :
  ∀ st id event userId,
    events st !! id = Some event →
    inParticipation id userId st →
    let st1 := (remove Committed id st).2 in
    inParticipation id userId st1 ∧
    ¬ inMarketers id userId st1 ∧
    ¬ consistent id userId st1 ∧
    attendees st1 = attendees st ∧
    ∀ env, ∃ exn, removeMarketerFromEvent env id userId st1 = (inl exn, st1) ∧
                  kind_of exn = GenericFailure.
Proof.
  intros st id event userId Hev Hp st1.
  destruct (remove_success_store st id event Hev) as (Hus1 & Hat1 & Hgone).
  fold st1 in Hus1, Hat1, Hgone.
  assert (inParticipation id userId st1) as Hp1
    by (unfold inParticipation; by rewrite Hus1).
  assert (¬ inMarketers id userId st1) as Hm1
    by (unfold inMarketers; rewrite Hgone; tauto).
  split_and!; [done|done| |done|].
  - intros Hcons. by apply Hm1, Hcons.
  - intros env. eexists. split; [by apply leave_missing_event|done].
Qed.

(** The marketer [m0] of [demo_store] after the event [e1] is deleted. *)
Lemma remove_leaves_back_references_witness :
  let st1 := (remove Committed "e1" demo_store).2 in
  inParticipation "e1" "m0" st1 ∧ ¬ inMarketers "e1" "m0" st1.
Proof.
  intros st1.
  destruct (remove_leaves_back_references demo_store "e1" demo_event "m0")
    as (Hp & Hm & _); [reflexivity | decide_true |].
  split; assumption.
Defined.

(** ** Active events *)

(** X19. [getActiveEvents] never returns an empty list and never reports
    [NOT_FOUND]: when no stored event is active, the 404 it throws is caught
    and rethrown with status [INTERNAL_SERVER_ERROR]; otherwise it returns
    the active events, and those only. It changes nothing. *)
Theorem getActiveEvents_outcomes :
  ∀ (isActive : Id → bool) st,
    ((∀ id event, events st !! id = Some event → isActive id = false) →
     getActiveEvents isActive st =
       (inl (HttpException "Failed to retrieve active events: No active events found"
               INTERNAL_SERVER_ERROR), st)) ∧
    (∀ id event,
       events st !! id = Some event → isActive id = true →
       ∃ found, getActiveEvents isActive st = (inr found, st) ∧
                found ≠ [] ∧
                ∀ p, p ∈ found ↔ events st !! p.1 = Some p.2 ∧ isActive p.1 = true).
Proof.
  intros isActive st. unfold getActiveEvents, try_catch, throw.
  pose proof (λ p, list_elem_of_filter (λ p : string * Event, isActive p.1 = true)
                     (map_to_list (events st)) p) as Hfilter.
  destruct (filter _ (map_to_list (events st))) as [|q found]; split.
  - done.
  - intros id event Hev Hact. exfalso.
    eapply elem_of_nil, (Hfilter (id, event)). split; [done|].
    by apply elem_of_map_to_list.
  - intros Hnone. exfalso. destruct q as [id event].
    destruct (proj1 (Hfilter (id, event))) as [Hact Hin]; [by left|].
    apply elem_of_map_to_list in Hin. simpl in Hact.
    rewrite (Hnone id event Hin) in Hact. discriminate.
  - intros id event Hev Hact. eexists. split_and!; [done..|].
    intros [k e]. rewrite Hfilter, elem_of_map_to_list. simpl. tauto.
Qed.

(** [demo_store] with its one event inactive, and with it active. *)
Lemma getActiveEvents_outcomes_witness :
  getActiveEvents (λ _, false) demo_store =
    (inl (HttpException "Failed to retrieve active events: No active events found"
            INTERNAL_SERVER_ERROR), demo_store) ∧
  ∃ found, getActiveEvents (λ _, true) demo_store = (inr found, demo_store) ∧ found ≠ [].
Proof.
  split.
  - apply (getActiveEvents_outcomes (λ _, false) demo_store). reflexivity.
  - destruct (proj2 (getActiveEvents_outcomes (λ _, true) demo_store) "e1" demo_event)
      as (found & Hrun & Hne & _); [reflexivity | reflexivity |].
    exists found. split; assumption.
Defined.

(** ** What no sequence of calls does *)

Lemma step_kept_documents env op st :
  (∀ e, is_Some (events (step env op st).2 !! e) ↔ is_Some (events st !! e)) ∧
  (∀ u, role <$> users (step env op st).2 !! u = role <$> users st !! u).
Proof.
  destruct op; unfold_service; simpl.
  all: repeat (case_match; simplify_eq/=; try done).
  all: split; intros x.
  all: rewrite ?lookup_insert; repeat case_decide; simplify_eq/=; try done.
  all: try by split; eauto.
  all: by repeat match goal with
              | H : ?m !! ?k = _ |- context [?m !! ?k] => rewrite H
              end.
Qed.

(** X20. No sequence of [join], [leave], [request], [review], [cancel] and
    [checkIn] calls creates or deletes an event, creates or deletes a user, or
    changes the role of a user. *)
Theorem calls_keep_documents_and_roles :
  ∀ calls st,
    (∀ e, is_Some (events (run calls st) !! e) ↔ is_Some (events st !! e)) ∧
    (∀ u, role <$> users (run calls st) !! u = role <$> users st !! u).
Proof.
  induction calls as [|[env op] calls IH]; intros st; simpl; [done|].
  destruct (IH (step env op st).2) as [Hev Hus].
  destruct (step_kept_documents env op st) as [Hev1 Hus1].
  split.
  - intros e. by rewrite Hev, Hev1.
  - intros u. by rewrite Hus, Hus1.
Qed.

Lemma attendees_step_identity (l l' : list Attendee) :
  Forall2 attendee_step l l' →
  (λ a, (att_id a, att_event a, att_phone a)) <$> l'
  = (λ a, (att_id a, att_event a, att_phone a)) <$> l.
Proof.
  induction 1 as [|a a' l l' Ha _ IH]; [done|].
  rewrite !fmap_cons, IH. f_equal.
  by destruct Ha as [->|(_ & c & t & ->)].
Qed.

(** X21. With attendee ids unique, no sequence of calls adds, drops,
    reorders or re-registers an attendee: the ids, events and phones of the
    attendee collection stay as they are, position by position. *)
Theorem calls_keep_attendee_registrations :
  ∀ calls st,
    uniqueAttendeeIds st →
    (λ a, (att_id a, att_event a, att_phone a)) <$> attendees (run calls st)
    = (λ a, (att_id a, att_event a, att_phone a)) <$> attendees st.
Proof.
  intros calls st Hnd. apply attendees_step_identity. by apply run_attendees.
Qed.

(** The registrations of [demo_store_approved] after a check-in. *)
Lemma calls_keep_attendee_registrations_witness :
  (λ a, (att_id a, att_event a, att_phone a)) <$>
    attendees (run [(env_ok 70 "r9", checkIn "e1" "+15551234567" "c1")] demo_store_approved)
  = [("a1", "e1", "+15551234567"); ("a2", "e1", "+15551234567")].
Proof.
  apply (calls_keep_attendee_registrations
           [(env_ok 70 "r9", checkIn "e1" "+15551234567" "c1")] demo_store_approved).
  decide_true.
Defined.
